(** * Post controller of the Insta backend: a shallow embedding

    Source: [backend/controllers/post.controller.js] together with the
    Mongoose schema of [backend/models/post.model.js].

    The request handlers are embedded as functions over an explicit world
    (the two document collections, the directory of temporary upload files
    and the log of calls made to the remote media service), in a small
    state-and-exception monad that mirrors the [try]/[catch] structure of
    the JavaScript code.  Strings are sequences of UTF-16 code units, as in
    JavaScript.  The [timestamps] option of the two schemas is left out:
    none of the handlers embedded here reads the dates it maintains.

    Three things the document store does are outside the model, and the
    statements below are worded accordingly.  A read or write of the
    store does not reject (a write is refused by validation only), so
    what is said of a request that goes on after a write is said of the
    request that succeeds.  The dates [createdAt] and [updatedAt] are not
    held, so no statement equates a world after a write with the world
    before it.  Strings are stored as they are, which is what the store
    does with well-formed UTF-16 ([isWellFormed]); statements that name
    the stored text assume it well formed. *)

From stdpp Require Import gmap list strings infinite.

Open Scope N_scope.

(** ** JavaScript strings *)

Module JS.

(** A JavaScript string: its UTF-16 code units. *)
Abbreviation str := (list N).

(** An ASCII literal of the source program. *)
Definition lit (s : string) : str :=
  (λ a, Ascii.N_of_ascii a) <$> String.list_ascii_of_string s.

(** [!s] is false exactly for the non-empty string. *)
Definition truthy (s : str) : bool :=
  match s with [] => false | _ => true end.

(** Truthiness of a value that may be [undefined]. *)
Definition truthy_opt (o : option str) : bool :=
  match o with None => false | Some s => truthy s end.

(** [a || b] on values that may be [undefined]. *)
Definition or_else (a b : option str) : option str :=
  if truthy_opt a then a else b.

(** WhiteSpace and LineTerminator code points of ECMAScript, the ones
    [String.prototype.trim] strips. *)
Definition is_ws (c : N) : bool :=
  ((9 <=? c) && (c <=? 13))
  || (c =? 32) || (c =? 160) || (c =? 5760)
  || ((8192 <=? c) && (c <=? 8202))
  || (c =? 8232) || (c =? 8233) || (c =? 8239) || (c =? 8287)
  || (c =? 12288) || (c =? 65279).

Fixpoint trimStart (s : str) : str :=
  match s with
  | c :: s' => if is_ws c then trimStart s' else s
  | [] => []
  end.

Definition trimEnd (s : str) : str := rev (trimStart (rev s)).

Definition trim (s : str) : str := trimEnd (trimStart s).

(** [s.startsWith(p)] *)
Fixpoint startsWith (p s : str) : bool :=
  match p, s with
  | [], _ => true
  | a :: p', b :: s' => (a =? b) && startsWith p' s'
  | _ :: _, [] => false
  end.

(** [xs.includes(x)] *)
Definition includes `{EqDecision A} (x : A) (xs : list A) : bool :=
  bool_decide (x ∈ xs).

End JS.

Import JS.

(** ** Documents *)

(** A Mongo [ObjectId]; [toString] is injective on them, so the string
    comparisons of the source are equalities of ids. *)
Abbreviation ObjectId := N.

(** [commentSchema]: [content] and [author], plus the [_id] Mongoose gives
    every subdocument.  A path that was never set is [None]. *)
Record Comment := mkComment {
  c_id : ObjectId;
  content : option str;
  c_author : ObjectId;
}.

(** [postSchema].  The document's own [_id] is the key under which the
    collection holds it. *)
Record Post := mkPost {
  caption : option str;
  image : option str;
  video : option str;
  mediaType : option str;
  author : ObjectId;
  likes : list ObjectId;
  comments : list Comment;
  bookmarks : list ObjectId;
}.

(** Modelled from the spec: the user model ([models/user.model.js]) is not
    among the sources.  The controller reads and writes its [bookmarks]
    array (the mirror of a post's [bookmarks]) and populates the display
    fields [username], [name] and [profilePicture]. *)
Record User := mkUser {
  username : str;
  name : str;
  profilePicture : str;
  u_bookmarks : list ObjectId;
}.

Definition set_likes (l : list ObjectId) (p : Post) : Post :=
  mkPost (caption p) (image p) (video p) (mediaType p) (author p)
         l (comments p) (bookmarks p).

Definition set_comments (l : list Comment) (p : Post) : Post :=
  mkPost (caption p) (image p) (video p) (mediaType p) (author p)
         (likes p) l (bookmarks p).

Definition set_bookmarks (l : list ObjectId) (p : Post) : Post :=
  mkPost (caption p) (image p) (video p) (mediaType p) (author p)
         (likes p) (comments p) l.

Definition set_u_bookmarks (l : list ObjectId) (u : User) : User :=
  mkUser (username u) (name u) (profilePicture u) l.

(** ** Errors, the remote media service, the world *)

(** The paths of a post document that carry validators. *)
Inductive Path :=
  | PathMediaType
  | PathCommentContent (index : nat).

Inductive ValidatorKind :=
  | KindRequired
  | KindEnum.

(** What the handlers can catch. *)
Inductive Error :=
  | ValidationError (errors : list (Path * ValidatorKind))
  | CloudinaryError (message : str)
  | ENOENT (path : str)
  | TypeError.

(** [error.message] is a non-empty text for every error the runtime or
    Mongoose raises; the remote service chooses its own. *)
Definition has_message (e : Error) : bool :=
  match e with
  | CloudinaryError m => truthy m
  | _ => true
  end.

Record Transformation := mkTransformation {
  width : N;
  height : N;
  crop : str;
}.

Record UploadOptions := mkUploadOptions {
  resource_type : str;
  folder : str;
  transformation : option (list Transformation);
}.

Record UploadResult := mkUploadResult {
  secure_url : str;
  r_resource_type : str;
}.

(** [cloudinary.uploader]: the remote service decides the outcome of each
    call; a rejected promise is [inl]. *)
Record Cloudinary := mkCloudinary {
  upload : str → UploadOptions → Error + UploadResult;
  destroy : str → Error + str;
}.

Inductive CloudCall :=
  | CallUpload (path : str) (options : UploadOptions)
  | CallDestroy (publicId : str).

Record World := mkWorld {
  posts : gmap ObjectId Post;
  users : gmap ObjectId User;
  tmpfiles : gset str;
  cloud_calls : list CloudCall;
}.

Definition set_posts (f : gmap ObjectId Post → gmap ObjectId Post) (w : World) : World :=
  mkWorld (f (posts w)) (users w) (tmpfiles w) (cloud_calls w).

Definition set_users (f : gmap ObjectId User → gmap ObjectId User) (w : World) : World :=
  mkWorld (posts w) (f (users w)) (tmpfiles w) (cloud_calls w).

Definition set_tmpfiles (f : gset str → gset str) (w : World) : World :=
  mkWorld (posts w) (users w) (f (tmpfiles w)) (cloud_calls w).

Definition log_call (c : CloudCall) (w : World) : World :=
  mkWorld (posts w) (users w) (tmpfiles w) (cloud_calls w ++ [c]).

(** ** The monad of handler code *)

(** A computation runs on a world and either throws or returns; the world
    it leaves behind is kept in both cases, as effects done before a
    [throw] are not undone. *)
Definition M (A : Type) : Type := World → (Error + A) * World.

Definition ret {A} (a : A) : M A := λ w, (inr a, w).

Definition throw {A} (e : Error) : M A := λ w, (inl e, w).

Definition bind {A B} (m : M A) (k : A → M B) : M B :=
  λ w, match m w with
       | (inr a, w') => k a w'
       | (inl e, w') => (inl e, w')
       end.

(** [try { m } catch (e) { h e }] *)
Definition try_catch {A} (m : M A) (h : Error → M A) : M A :=
  λ w, match m w with
       | (inr a, w') => (inr a, w')
       | (inl e, w') => h e w'
       end.

Definition get : M World := λ w, (inr w, w).

Definition modify (f : World → World) : M unit := λ w, (inr tt, f w).

(** [await Promise.all([a, b])]: both operations are started, so the
    second takes effect whatever the first one's outcome; the result is
    the first rejection, if any. *)
Definition promise_all2 {A B} (a : M A) (b : M B) : M (A * B) :=
  λ w, let '(ra, w1) := a w in
       let '(rb, w2) := b w1 in
       match ra, rb with
       | inr x, inr y => (inr (x, y), w2)
       | inl e, _ => (inl e, w2)
       | inr _, inl e => (inl e, w2)
       end.

Declare Scope js_scope.
Delimit Scope js_scope with js.
Notation "x <- m ;; k" := (bind m (λ x, k))
  (at level 100, m at next level, right associativity) : js_scope.
Notation "m ;; k" := (bind m (λ _, k))
  (at level 100, right associativity) : js_scope.
Open Scope js_scope.

(** ** Mongoose: casting, validation, the two collections *)

(** The [trim: true] setter of a String path. *)
Definition cast_trim (v : option str) : option str := trim <$> v.

(** [required: true] on a String path: the value is a non-empty string. *)
Definition checkRequired (v : option str) : bool := truthy_opt v.

(** [enum: values]: passes on an unset path. *)
Definition checkEnum (values : list str) (v : option str) : bool :=
  match v with
  | None => true
  | Some s => includes s values
  end.

Definition mediaType_enum : list str := [lit "image"; lit "video"].

(** The validators of a path run in order and the first failure is the
    path's error. *)
Definition validate_mediaType (v : option str) : list (Path * ValidatorKind) :=
  if negb (checkRequired v) then [(PathMediaType, KindRequired)]
  else if negb (checkEnum mediaType_enum v) then [(PathMediaType, KindEnum)]
  else [].

Definition validate_comment (i : nat) (c : Comment) : list (Path * ValidatorKind) :=
  if negb (checkRequired (content c)) then [(PathCommentContent i, KindRequired)]
  else [].

Definition validate_post (p : Post) : list (Path * ValidatorKind) :=
  validate_mediaType (mediaType p) ++ concat (imap validate_comment (comments p)).

Definition validate (p : Post) : M unit :=
  match validate_post p with
  | [] => ret tt
  | errors => throw (ValidationError errors)
  end.

(** [Post.findById(id)] *)
Definition findById (id : ObjectId) : M (option Post) :=
  w <- get ;; ret (posts w !! id).

(** [User.findById(id)] *)
Definition User_findById (id : ObjectId) : M (option User) :=
  w <- get ;; ret (users w !! id).

(** [post.save()]: validation, then the write. *)
Definition save (id : ObjectId) (p : Post) : M unit :=
  validate p ;; modify (set_posts (insert id p)).

(** [user.save()] *)
Definition User_save (id : ObjectId) (u : User) : M unit :=
  modify (set_users (insert id u)).

(** [Post.findOne({ _id: id, "comments._id": cid })] *)
Definition findOne_comment (id cid : ObjectId) : M (option Post) :=
  w <- get ;;
  ret (match posts w !! id with
       | Some p => if bool_decide (cid ∈ c_id <$> comments p) then Some p else None
       | None => None
       end).

(** [post.deleteOne()] *)
Definition deleteOne (id : ObjectId) : M unit :=
  modify (set_posts (delete id)).

(** The object handed to [Post.create]; a key left out is [None]. *)
Record PostData := mkPostData {
  pd_caption : option str;
  pd_author : ObjectId;
  pd_image : option str;
  pd_video : option str;
  pd_mediaType : option str;
}.

(** [new Post(postData)]: the setters run, the arrays default to empty. *)
Definition new_Post (d : PostData) : Post :=
  mkPost (cast_trim (pd_caption d)) (pd_image d) (pd_video d)
         (pd_mediaType d) (pd_author d) [] [] [].

(** [Post.create(postData)]: the new document is validated and stored
    under an id no stored post has. *)
Definition Post_create (d : PostData) : M ObjectId :=
  let doc := new_Post d in
  validate doc ;;
  w <- get ;;
  let id := fresh (dom (posts w)) in
  modify (set_posts (insert id doc)) ;;
  ret id.

(** [post.comments.push({content, author})]: the object is cast to a
    subdocument, which gives it an [_id] and trims its content. *)
Definition push_comment (text : option str) (user_id : ObjectId) (p : Post) : Post :=
  let c := mkComment (fresh (c_id <$> comments p)) (cast_trim text) user_id in
  set_comments (comments p ++ [c]) p.

(** A user as [populate] leaves it in a response. *)
Record AuthorView := mkAuthorView {
  av_id : ObjectId;
  av_username : str;
  av_name : option str;
  av_profilePicture : str;
}.

Record PopulatedComment := mkPopulatedComment {
  pc_doc : Comment;
  pc_author : option AuthorView;
}.

Record PopulatedPost := mkPopulatedPost {
  pp_id : ObjectId;
  pp_doc : Post;
  pp_author : option AuthorView;
  pp_comments : list PopulatedComment;
}.

(** [populate(path, 'username profilePicture')], with [name] when the
    selection lists it; a dangling reference populates to [null]. *)
Definition populate_user (with_name : bool) (w : World) (id : ObjectId) : option AuthorView :=
  (λ u, mkAuthorView id (username u)
                     (if with_name then Some (name u) else None)
                     (profilePicture u)) <$> users w !! id.

Definition populate_comments (with_name : bool) (w : World) (cs : list Comment) : list PopulatedComment :=
  (λ c, mkPopulatedComment c (populate_user with_name w (c_author c))) <$> cs.

(** ** Responses *)

Inductive Msg :=
  | MsgLit (text : string)
  | MsgError (e : Error)            (* error.message *)
  | MsgUploadFailed (e : Error).    (* `Upload failed: ${uploadError.message}` *)

Inductive Payload :=
  | NoPayload
  | PayloadPost (post : option PopulatedPost)
  | PayloadComment (comment : option PopulatedComment).

Record Response := mkResponse {
  status : N;
  success : bool;
  message : Msg;
  payload : Payload;
}.

(** [res.status(code).json({ success, message })] *)
Definition json (code : N) (ok : bool) (text : string) : Response :=
  mkResponse code ok (MsgLit text) NoPayload.

Definition json_error (code : N) (m : Msg) : Response :=
  mkResponse code false m NoPayload.

(** [x.field] on a value that may be [null]. *)
Definition deref {A} (x : option A) : M A :=
  match x with
  | Some a => ret a
  | None => throw TypeError
  end.

(** ** The file system under the upload directory *)

(** [unlinkAsync(path)] *)
Definition unlinkAsync (path : str) : M unit :=
  λ w, if bool_decide (path ∈ tmpfiles w)
       then (inr tt, set_tmpfiles (λ s, s ∖ {[path]}) w)
       else (inl (ENOENT path), w).

(** [fs.existsSync(path)] *)
Definition existsSync (path : str) : M bool :=
  w <- get ;; ret (bool_decide (path ∈ tmpfiles w)).

(** ** The handlers of [post.controller.js] *)

(** [req.file], as the upload middleware leaves it. *)
Record File := mkFile {
  mimetype : str;
  path : str;
}.

Definition allowedTypes : list str :=
  [lit "image/jpeg"; lit "image/png"; lit "image/jpg"; lit "video/mp4"].

Section Handlers.

Variable cloudinary : Cloudinary.

(** [cloudinary.uploader.upload(path, options)] *)
Definition uploader_upload (path : str) (options : UploadOptions) : M UploadResult :=
  modify (log_call (CallUpload path options)) ;;
  match upload cloudinary path options with
  | inl e => throw e
  | inr r => ret r
  end.

(** [cloudinary.uploader.destroy(publicId)] *)
Definition uploader_destroy (publicId : str) : M str :=
  modify (log_call (CallDestroy publicId)) ;;
  match destroy cloudinary publicId with
  | inl e => throw e
  | inr r => ret r
  end.

(** [addNewPost]: [userId] is [req.id], [caption] is [req.body.caption]
    and [file] is [req.file].  The inner block either answers the request
    ([inl]) or falls through with [mediaUrl] and [mediaType] ([inr]). *)
Definition addNewPost (userId : option ObjectId) (caption : option str)
    (file : option File) : M Response :=
  try_catch
    (match userId with
     | None => ret (json 401 false "Authentication required")
     | Some userId =>
       if negb (bool_decide (is_Some file)) && negb (truthy_opt caption) then
         ret (json 400 false "Please provide either a caption or media file")
       else
         media <-
           match file with
           | None => ret (inr ([], []))
           | Some file =>
             try_catch
               (if negb (includes (mimetype file) allowedTypes) then
                  unlinkAsync (path file) ;;
                  ret (inl (json 400 false
                    "Invalid file type. Only JPEG, PNG, and MP4 are allowed"))
                else
                  result <- uploader_upload (path file)
                    (mkUploadOptions (lit "auto") (lit "posts")
                       (if startsWith (lit "image") (mimetype file)
                        then Some [mkTransformation 1080 1080 (lit "limit")]
                        else None)) ;;
                  unlinkAsync (path file) ;;
                  ret (inr (secure_url result, r_resource_type result)))
               (λ uploadError,
                  there <- existsSync (path file) ;;
                  (if there then unlinkAsync (path file) else ret tt) ;;
                  ret (inl (json_error 500 (MsgUploadFailed uploadError))))
           end ;;
         match media with
         | inl response => ret response
         | inr (mediaUrl, mediaType) =>
           let isVideo := bool_decide (mediaType = lit "video") in
           let postData :=
             if truthy mediaUrl then
               mkPostData caption userId
                 (if isVideo then None else Some mediaUrl)
                 (if isVideo then Some mediaUrl else None)
                 (Some mediaType)
             else mkPostData caption userId None None None in
           id <- Post_create postData ;;
           w <- get ;;
           let populatedPost :=
             (λ p, mkPopulatedPost id p (populate_user true w (author p))
                     (populate_comments true w (comments p))) <$> posts w !! id in
           ret (mkResponse 201 true (MsgLit "Post created successfully")
                           (PayloadPost populatedPost))
         end
     end)
    (λ error,
       match file with
       | Some file =>
         there <- existsSync (path file) ;;
         if there then unlinkAsync (path file) else ret tt
       | None => ret tt
       end ;;
       ret (json_error 500 (if has_message error then MsgError error
                            else MsgLit "Failed to create post"))).

(** [likePost]: [id] is [req.params.id], [user_id] is [req.user._id]. *)
Definition likePost (id user_id : ObjectId) : M Response :=
  try_catch
    (post <- findById id ;;
     match post with
     | None => ret (json 404 false "Post not found")
     | Some post =>
       if includes user_id (likes post) then
         ret (json 400 false "Post already liked")
       else
         let post := set_likes (likes post ++ [user_id]) post in
         save id post ;;
         ret (json 200 true "Post liked successfully")
     end)
    (λ error, ret (json_error 500 (MsgError error))).

(** [dislikePost] *)
Definition dislikePost (id user_id : ObjectId) : M Response :=
  try_catch
    (post <- findById id ;;
     match post with
     | None => ret (json 404 false "Post not found")
     | Some post =>
       if negb (includes user_id (likes post)) then
         ret (json 400 false "Post not liked yet")
       else
         let post := set_likes (filter (λ x, x ≠ user_id) (likes post)) post in
         save id post ;;
         ret (json 200 true "Post disliked successfully")
     end)
    (λ error, ret (json_error 500 (MsgError error))).

(** [addComment]: [text] is [req.body.text]. *)
Definition addComment (id user_id : ObjectId) (text : option str) : M Response :=
  try_catch
    (post <- findById id ;;
     match post with
     | None => ret (json 404 false "Post not found")
     | Some post =>
       let post := push_comment text user_id post in
       save id post ;;
       lastComment <- deref (last (comments post)) ;;
       doc <- findOne_comment id (c_id lastComment) ;;
       doc <- deref doc ;;
       w <- get ;;
       let populatedComment := last (populate_comments false w (comments doc)) in
       ret (mkResponse 200 true (MsgLit "Comment added successfully")
                       (PayloadComment populatedComment))
     end)
    (λ error, ret (json_error 500 (MsgError error))).

(** [deletePost] *)
Definition deletePost (id user_id : ObjectId) : M Response :=
  try_catch
    (post <- findById id ;;
     match post with
     | None => ret (json 404 false "Post not found")
     | Some post =>
       if negb (bool_decide (author post = user_id)) then
         ret (json 403 false "Unauthorized to delete this post")
       else
         let publicId := or_else (image post) (video post) in
         (if truthy_opt publicId
          then uploader_destroy (default [] publicId) ;; ret tt
          else ret tt) ;;
         deleteOne id ;;
         ret (json 200 true "Post deleted successfully")
     end)
    (λ error, ret (json_error 500 (MsgError error))).

(** [bookmarkPost] *)
Definition bookmarkPost (id user_id : ObjectId) : M Response :=
  try_catch
    (post <- findById id ;;
     user <- User_findById user_id ;;
     match post with
     | None => ret (json 404 false "Post not found")
     | Some post =>
       let isBookmarked := includes user_id (bookmarks post) in
       if isBookmarked then
         let post := set_bookmarks (filter (λ x, x ≠ user_id) (bookmarks post)) post in
         user <- deref user ;;
         let user := set_u_bookmarks (filter (λ x, x ≠ id) (u_bookmarks user)) user in
         promise_all2 (save id post) (User_save user_id user) ;;
         ret (json 200 true "Post removed from bookmarks")
       else
         let post := set_bookmarks (bookmarks post ++ [user_id]) post in
         user <- deref user ;;
         let user := set_u_bookmarks (u_bookmarks user ++ [id]) user in
         promise_all2 (save id post) (User_save user_id user) ;;
         ret (json 200 true "Post bookmarked successfully")
     end)
    (λ error, ret (json_error 500 (MsgError error))).

(** What [getCommentsOfPost] sends: [{ success: true, comments }] with
    status 200, or one of the failure answers. *)
Inductive CommentsResponse :=
  | CommentsOk (comments : list PopulatedComment)
  | CommentsError (r : Response).

(** [getCommentsOfPost] *)
Definition getCommentsOfPost (id : ObjectId) : M CommentsResponse :=
  try_catch
    (post <- findById id ;;
     w <- get ;;
     match post with
     | None => ret (CommentsError (json 404 false "Post not found"))
     | Some post => ret (CommentsOk (populate_comments false w (comments post)))
     end)
    (λ error, ret (CommentsError (json_error 500 (MsgError error)))).

End Handlers.

(** * Vocabulary of the properties *)

(** [post.image || post.video], the reference handed to the media
    service. *)
Definition publicId_of (p : Post) : option str := or_else (image p) (video p).

(** The options [addNewPost] sends with an upload. *)
Definition upload_options (file : File) : UploadOptions :=
  mkUploadOptions (lit "auto") (lit "posts")
    (if startsWith (lit "image") (mimetype file)
     then Some [mkTransformation 1080 1080 (lit "limit")]
     else None).

(** The array an id toggle leaves: the id filtered out when it was said to
    be present, pushed at the end otherwise. *)
Definition toggled (present : bool) (x : ObjectId) (l : list ObjectId) : list ObjectId :=
  if present then filter (λ y, y ≠ x) l else l ++ [x].

(** The stored post [id] exists and holds each user id at most once in
    [likes] and in [bookmarks]. *)
Definition unique_at (id : ObjectId) (w : World) : Prop :=
  ∃ p, posts w !! id = Some p ∧ NoDup (likes p) ∧ NoDup (bookmarks p).

(** Every stored post passes the schema's validation. *)
Definition store_valid (w : World) : Prop :=
  ∀ id p, posts w !! id = Some p → validate_post p = [].

(** A computation keeps an invariant of the world on every outcome. *)
Definition preserves {A} (I : World → Prop) (m : M A) : Prop :=
  ∀ w, I w → I (snd (m w)).

(** The document [addNewPost] builds from an upload result. *)
Definition post_of_upload (userId : ObjectId) (caption : option str)
    (res : UploadResult) : Post :=
  mkPost (cast_trim caption)
         (if bool_decide (r_resource_type res = lit "video")
          then None else Some (secure_url res))
         (if bool_decide (r_resource_type res = lit "video")
          then Some (secure_url res) else None)
         (Some (r_resource_type res)) userId [] [] [].

(** The comment [addComment] appends for a text. *)
Definition new_comment (p : Post) (user_id : ObjectId) (text : str) : Comment :=
  mkComment (fresh (c_id <$> comments p)) (Some (trim text)) user_id.

(** The bookmark arrays of every stored post and every stored user
    mirror each other. *)
Definition mirror (w : World) : Prop :=
  ∀ id user_id p u,
    posts w !! id = Some p → users w !! user_id = Some u →
    (user_id ∈ bookmarks p ↔ id ∈ u_bookmarks u).

(** Two versions of a post that differ at most in [likes] and
    [bookmarks]. *)
Definition same_content (p p' : Post) : Prop :=
  caption p' = caption p ∧ image p' = image p ∧ video p' = video p
  ∧ mediaType p' = mediaType p ∧ author p' = author p
  ∧ comments p' = comments p.

(** What an engagement request on the post [target] may do to the world:
    it creates and deletes no post, leaves every other post as it is and
    the content of [target] too, and touches neither the upload directory
    nor the media service. *)
Definition engagement_only (target : ObjectId) (w w' : World) : Prop :=
  tmpfiles w' = tmpfiles w
  ∧ cloud_calls w' = cloud_calls w
  ∧ dom (posts w') = dom (posts w)
  ∧ ∀ id p, posts w !! id = Some p →
      ∃ p', posts w' !! id = Some p' ∧ same_content p p'
            ∧ (id ≠ target → p' = p).

(** [s.isWellFormed()]: a sequence of UTF-16 code units without a lone
    surrogate.  The document store keeps such a string as it is. *)
Fixpoint isWellFormed (s : str) : bool :=
  match s with
  | [] => true
  | c :: s' =>
    if (55296 <=? c) && (c <=? 56319) then
      match s' with
      | d :: s'' => (56320 <=? d) && (d <=? 57343) && isWellFormed s''
      | [] => false
      end
    else negb ((56320 <=? c) && (c <=? 57343)) && (c <=? 65535) && isWellFormed s'
  end.

(** A value that may be unset is well formed when the string it holds
    is. *)
Definition isWellFormed_opt (v : option str) : bool :=
  match v with
  | Some s => isWellFormed s
  | None => true
  end.

(** The [success] flag of an answer agrees with its status code. *)
Definition coherent (r : Response) : Prop :=
  success r = true ↔ (status r = 200 ∨ status r = 201).

(** ** Sample data *)

Module Sample.

Definition alice : ObjectId := 7.
Definition bob : ObjectId := 8.

Definition photo : Post :=
  mkPost (Some (lit "sunset")) (Some (lit "https://res.example/posts/a.jpg"))
         None (Some (lit "image")) alice
         [alice] [mkComment 3 (Some (lit "nice")) alice] [alice].

Definition alice_doc : User := mkUser (lit "alice") (lit "Alice") (lit "") [1].
Definition bob_doc : User := mkUser (lit "bob") (lit "Bob") (lit "") [].

Definition world : World :=
  mkWorld {[ 1 := photo ]}
          {[ alice := alice_doc; bob := bob_doc ]}
          {[ lit "uploads/f1" ]}
          [].

(** A world in which bob's array lists post 1 although the post's array
    does not list bob. *)
Definition bob_stale : User := mkUser (lit "bob") (lit "Bob") (lit "") [1].

Definition stale_world : World :=
  mkWorld {[ 1 := photo ]} {[ bob := bob_stale ]} ∅ [].

(** A media service whose every call is rejected. *)
Definition unreachable : Cloudinary :=
  mkCloudinary (λ _ _, inl (CloudinaryError (lit "ECONNRESET")))
               (λ _, inl (CloudinaryError (lit "ECONNRESET"))).

(** A media service that stores images and answers deletions. *)
Definition reachable : Cloudinary :=
  mkCloudinary
    (λ _ _, inr (mkUploadResult (lit "https://res.example/posts/n.jpg") (lit "image")))
    (λ _, inr (lit "not found")).

End Sample.

(** * Properties *)

(** ** Strings *)

Lemma trimStart_ws (s : str) :
  Forall (λ c, is_ws c = true) s → trimStart s = [].
Proof.
  induction 1 as [|c s Hc _ IH]; simpl; [done|]. by rewrite Hc.
Qed.

Lemma trimStart_nil_inv (s : str) :
  trimStart s = [] → Forall (λ c, is_ws c = true) s.
Proof.
  induction s as [|c s IH]; simpl; [constructor|].
  destruct (is_ws c) eqn:Hc; [|done]. intros H. constructor; auto.
Qed.

Lemma trimStart_head (s : str) c t :
  trimStart s = c :: t → is_ws c = false.
Proof.
  induction s as [|a s IH]; simpl; [done|].
  destruct (is_ws a) eqn:Ha; [done|]. by intros [= <- _].
Qed.

(** A string trims to the empty string exactly when it is empty or holds
    white space only. *)
Lemma trim_nil_iff (s : str) :
  trim s = [] ↔ Forall (λ c, is_ws c = true) s.
Proof.
  unfold trim, trimEnd. split.
  - intros H. apply trimStart_nil_inv.
    apply (f_equal (@rev N)) in H. rewrite rev_involutive in H. simpl in H.
    apply trimStart_nil_inv in H.
    destruct (trimStart s) as [|c t] eqn:E; [done|].
    apply trimStart_head in E.
    apply Forall_forall with (x := c) in H; [congruence|].
    apply list_elem_of_In, in_rev. rewrite rev_involutive. by left.
  - intros H. by rewrite (trimStart_ws _ H).
Qed.

(** ** Reasoning about handler runs *)

(** Unfolds the monad so that a handler run reduces by [simpl] once the
    lookups it depends on are known. *)
Ltac run :=
  unfold try_catch, promise_all2, bind, ret, throw, get, modify, deref,
    findById, User_findById, findOne_comment, save, User_save, deleteOne,
    validate, existsSync; simpl.

Lemma includes_true `{EqDecision A} (x : A) (xs : list A) :
  includes x xs = true ↔ x ∈ xs.
Proof. unfold includes. apply bool_decide_eq_true. Qed.

Lemma includes_false `{EqDecision A} (x : A) (xs : list A) :
  includes x xs = false ↔ x ∉ xs.
Proof. unfold includes. apply bool_decide_eq_false. Qed.

(** The arrays of ids do not enter validation. *)
Lemma validate_post_set_likes l p :
  validate_post (set_likes l p) = validate_post p.
Proof. reflexivity. Qed.

Lemma validate_post_set_bookmarks l p :
  validate_post (set_bookmarks l p) = validate_post p.
Proof. reflexivity. Qed.

(** A [save] of a valid document writes it. *)
Lemma save_valid id p w :
  validate_post p = [] → save id p w = (inr tt, set_posts (insert id p) w).
Proof. intros H. run. by rewrite H. Qed.

(** A [save] of an invalid document throws and writes nothing. *)
Lemma save_invalid id p w :
  validate_post p ≠ [] →
  save id p w = (inl (ValidationError (validate_post p)), w).
Proof. intros H. run. by destruct (validate_post p). Qed.

(** ** Rejections that leave the world as it was *)

(** C7: for every post and every user id that is not in the post's
    [likes], [dislikePost] answers 400 "Post not liked yet" and leaves the
    world, hence the post's [likes], unchanged. *)
Theorem dislikePost_not_liked (w : World) (id user_id : ObjectId) (p : Post) :
  posts w !! id = Some p →
  user_id ∉ likes p →
  dislikePost id user_id w = (inr (json 400 false "Post not liked yet"), w).
Proof.
  intros Hp Hnot. unfold dislikePost. run. rewrite Hp.
  apply includes_false in Hnot. by rewrite Hnot.
Qed.

Lemma dislikePost_not_liked_witness :
  posts Sample.world !! 1 = Some Sample.photo ∧
  (Sample.bob ∉ likes Sample.photo) ∧
  dislikePost 1 Sample.bob Sample.world
  = (inr (json 400 false "Post not liked yet"), Sample.world).
Proof.
  split; [reflexivity|]. split; [compute_done|].
  apply (dislikePost_not_liked Sample.world 1 Sample.bob Sample.photo);
    [reflexivity | compute_done].
Defined.

(** C10: when the id names no stored post, [bookmarkPost] answers 404
    "Post not found" and the world is unchanged: neither collection is
    written, although the user document was loaded before the check. *)
Theorem bookmarkPost_not_found (w : World) (id user_id : ObjectId) :
  posts w !! id = None →
  bookmarkPost id user_id w = (inr (json 404 false "Post not found"), w).
Proof. intros Hp. unfold bookmarkPost. run. by rewrite Hp. Qed.

Lemma bookmarkPost_not_found_witness :
  posts Sample.world !! 2 = None ∧
  bookmarkPost 2 Sample.alice Sample.world
  = (inr (json 404 false "Post not found"), Sample.world).
Proof.
  split; [reflexivity|].
  apply (bookmarkPost_not_found Sample.world 2 Sample.alice). reflexivity.
Defined.

(** C8: when the request carries no file and its caption is absent or
    empty, [addNewPost] fails and leaves the world unchanged, so that no
    post document is created and no upload is attempted; for an
    authenticated request the answer is the 400 validation failure. *)
Theorem addNewPost_nothing_given (cl : Cloudinary) (w : World)
    (userId : option ObjectId) (caption : option str) :
  truthy_opt caption = false →
  ∃ r, addNewPost cl userId caption None w = (inr r, w)
       ∧ success r = false
       ∧ (is_Some userId →
          r = json 400 false "Please provide either a caption or media file").
Proof.
  intros Hc. unfold addNewPost. run. destruct userId as [u|]; simpl.
  - rewrite Hc. simpl. eexists. split; [reflexivity|]. by split.
  - eexists. split; [reflexivity|]. split; [done|]. by intros [? [=]].
Qed.

Lemma addNewPost_nothing_given_witness :
  truthy_opt (Some (lit "")) = false ∧
  ∃ r, addNewPost Sample.reachable (Some Sample.alice) (Some (lit "")) None Sample.world
       = (inr r, Sample.world)
       ∧ success r = false
       ∧ (is_Some (Some Sample.alice) →
          r = json 400 false "Please provide either a caption or media file").
Proof.
  split; [reflexivity|].
  apply (addNewPost_nothing_given Sample.reachable Sample.world
           (Some Sample.alice) (Some (lit ""))).
  reflexivity.
Defined.

(** ** Creating a post without media *)

(** A post created without a file has no [mediaType], which the schema
    requires: [Post.create] rejects it, whatever the caption. *)
Lemma addNewPost_without_file (cl : Cloudinary) (w : World) (userId : ObjectId)
    (caption : str) :
  truthy caption = true →
  addNewPost cl (Some userId) (Some caption) None w
  = (inr (json_error 500
            (MsgError (ValidationError [(PathMediaType, KindRequired)]))), w).
Proof.
  intros Hc. unfold addNewPost, Post_create. run. by rewrite Hc.
Qed.

(** C1: the specification's scenario is that a post with caption "hello"
    and no attachment is created, with that caption and no media.  The
    handler instead answers such a request 500 with the schema's
    validation error ([mediaType] is required), for every media service
    and in every world, and stores nothing. *)
Theorem addNewPost_caption_hello_rejected (cl : Cloudinary) (w : World) :
  addNewPost cl (Some Sample.alice) (Some (lit "hello")) None w
  = (inr (json_error 500
            (MsgError (ValidationError [(PathMediaType, KindRequired)]))), w).
Proof. by apply addNewPost_without_file. Qed.

(** ** Likes *)

Lemma count_occ_snoc_new (l : list ObjectId) (x : ObjectId) :
  x ∉ l → count_occ N.eq_dec (l ++ [x]) x = 1%nat.
Proof.
  intros Hx. rewrite count_occ_app. simpl.
  destruct (N.eq_dec x x); [|done].
  rewrite (proj1 (count_occ_not_In N.eq_dec l x)); [done|].
  by rewrite <- list_elem_of_In.
Qed.

(** C6: on a stored (valid) post that the user has not liked, the first
    [likePost] answers 200 and the second answers the distinct 400 "Post
    already liked"; the second call changes nothing, and after both the
    user's id occurs exactly once in the post's [likes]. *)
Theorem likePost_twice (w : World) (id user_id : ObjectId) (p : Post) :
  posts w !! id = Some p →
  validate_post p = [] →
  user_id ∉ likes p →
  ∃ w1 p1,
    likePost id user_id w = (inr (json 200 true "Post liked successfully"), w1)
    ∧ likePost id user_id w1 = (inr (json 400 false "Post already liked"), w1)
    ∧ posts w1 !! id = Some p1
    ∧ count_occ N.eq_dec (likes p1) user_id = 1%nat.
Proof.
  intros Hp Hv Hnot.
  exists (set_posts (insert id (set_likes (likes p ++ [user_id]) p)) w),
         (set_likes (likes p ++ [user_id]) p).
  split; [|split; [|split]].
  - unfold likePost. run. rewrite Hp.
    apply includes_false in Hnot. rewrite Hnot.
    rewrite validate_post_set_likes, Hv. reflexivity.
  - unfold likePost. run. rewrite lookup_insert_eq. simpl.
    assert (includes user_id (likes p ++ [user_id]) = true) as ->; [|done].
    apply includes_true. set_solver.
  - simpl. apply lookup_insert_eq.
  - simpl. by apply count_occ_snoc_new.
Qed.

Lemma likePost_twice_witness :
  posts Sample.world !! 1 = Some Sample.photo ∧
  validate_post Sample.photo = [] ∧
  (Sample.bob ∉ likes Sample.photo) ∧
  ∃ w1 p1,
    likePost 1 Sample.bob Sample.world
    = (inr (json 200 true "Post liked successfully"), w1)
    ∧ likePost 1 Sample.bob w1 = (inr (json 400 false "Post already liked"), w1)
    ∧ posts w1 !! 1 = Some p1
    ∧ count_occ N.eq_dec (likes p1) Sample.bob = 1%nat.
Proof.
  split; [reflexivity|]. split; [reflexivity|].
  split; [compute_done|].
  apply (likePost_twice Sample.world 1 Sample.bob Sample.photo);
    [reflexivity | reflexivity | compute_done].
Defined.

(** ** Comments *)

(** The required-content validator rejects the comment at the end of the
    array when its content is unset or empty. *)
Lemma validate_post_bad_last_comment (p : Post) (c : Comment) :
  checkRequired (content c) = false →
  (PathCommentContent (length (comments p)), KindRequired)
    ∈ validate_post (set_comments (comments p ++ [c]) p).
Proof.
  intros Hc. unfold validate_post. simpl.
  rewrite imap_app, concat_app. simpl.
  unfold validate_comment at 2. rewrite Hc. simpl.
  rewrite Nat.add_0_r. set_solver.
Qed.

(** C3: on every stored post, [addComment] with a text that is empty after
    trimming (empty, or white space only: [trim_nil_iff]) fails with the
    schema's validation error on the new comment's [content], reported
    with status 500, and leaves the world unchanged: nothing is appended
    to the stored post's [comments]. *)
Theorem addComment_blank (w : World) (id user_id : ObjectId) (p : Post)
    (text : str) :
  posts w !! id = Some p →
  trim text = [] →
  ∃ errors,
    addComment id user_id (Some text) w
    = (inr (json_error 500 (MsgError (ValidationError errors))), w)
    ∧ (PathCommentContent (length (comments p)), KindRequired) ∈ errors.
Proof.
  intros Hp Ht.
  pose proof (validate_post_bad_last_comment p
    (mkComment (fresh (c_id <$> comments p)) (cast_trim (Some text)) user_id)) as Hbad.
  simpl in Hbad. rewrite Ht in Hbad. specialize (Hbad eq_refl).
  exists (validate_post (push_comment (Some text) user_id p)).
  split.
  - unfold addComment. run. rewrite Hp.
    unfold push_comment in *. simpl. rewrite Ht.
    destruct (validate_post _) eqn:E; [by apply not_elem_of_nil in Hbad|done].
  - unfold push_comment. simpl. by rewrite Ht.
Qed.

Lemma addComment_blank_witness :
  posts Sample.world !! 1 = Some Sample.photo ∧
  trim (lit "  ") = [] ∧
  ∃ errors,
    addComment 1 Sample.bob (Some (lit "  ")) Sample.world
    = (inr (json_error 500 (MsgError (ValidationError errors))), Sample.world)
    ∧ (PathCommentContent (length (comments Sample.photo)), KindRequired) ∈ errors.
Proof.
  split; [reflexivity|]. split; [reflexivity|].
  apply (addComment_blank Sample.world 1 Sample.bob Sample.photo (lit "  "));
    reflexivity.
Defined.

(** ** Deleting a post that carries media *)

(** The author's [deletePost] on a post with media, when the remote
    deletion is rejected: the error is caught by the handler's only
    [catch], and [deleteOne] is never reached. *)
Lemma deletePost_destroy_rejected (cl : Cloudinary) (w : World) (id : ObjectId)
    (p : Post) (ref : str) (e : Error) :
  posts w !! id = Some p →
  publicId_of p = Some ref → truthy ref = true →
  destroy cl ref = inl e →
  deletePost cl id (author p) w
  = (inr (json_error 500 (MsgError e)), log_call (CallDestroy ref) w).
Proof.
  intros Hp Href Ht He. unfold deletePost, uploader_destroy. run. rewrite Hp.
  rewrite bool_decide_eq_true_2 by done. simpl.
  unfold publicId_of in Href. rewrite Href. simpl. rewrite Ht. simpl.
  by rewrite He.
Qed.

(** The same call when the remote deletion returns: its result is not
    looked at, and the document is removed. *)
Lemma deletePost_destroy_returned (cl : Cloudinary) (w : World) (id : ObjectId)
    (p : Post) (ref result : str) :
  posts w !! id = Some p →
  publicId_of p = Some ref → truthy ref = true →
  destroy cl ref = inr result →
  deletePost cl id (author p) w
  = (inr (json 200 true "Post deleted successfully"),
     set_posts (delete id) (log_call (CallDestroy ref) w)).
Proof.
  intros Hp Href Ht He. unfold deletePost, uploader_destroy. run. rewrite Hp.
  rewrite bool_decide_eq_true_2 by done. simpl.
  unfold publicId_of in Href. rewrite Href. simpl. rewrite Ht. simpl.
  by rewrite He.
Qed.

(** C2 does not hold as the specification states it: the author deletes a
    stored post that carries an image while the media service rejects the
    deletion call; the answer is 500 and the post document is still
    stored. *)
Lemma deletePost_remote_failure_keeps_post :
  posts Sample.world !! 1 = Some Sample.photo
  ∧ author Sample.photo = Sample.alice
  ∧ truthy_opt (publicId_of Sample.photo) = true
  ∧ (∃ e, destroy Sample.unreachable (default [] (publicId_of Sample.photo)) = inl e)
  ∧ fst (deletePost Sample.unreachable 1 Sample.alice Sample.world)
    = inr (json_error 500 (MsgError (CloudinaryError (lit "ECONNRESET"))))
  ∧ posts (snd (deletePost Sample.unreachable 1 Sample.alice Sample.world)) !! 1
    = Some Sample.photo.
Proof.
  split; [reflexivity|]. split; [reflexivity|]. split; [reflexivity|].
  split; [by eexists|]. split; reflexivity.
Qed.

(** C2, amended: for every [deletePost] by the author of a stored post
    that carries media, the post document is removed (answer 200) whenever
    the remote deletion call returns, whatever result it reports; when
    that call is rejected the handler answers 500 with the error's message
    and the document stays stored.  In both cases the remote call was
    made once and nothing else in the world changes. *)
Theorem deletePost_media_cleanup (cl : Cloudinary) (w : World) (id : ObjectId)
    (p : Post) (ref : str) :
  posts w !! id = Some p →
  publicId_of p = Some ref → truthy ref = true →
  let '(r, w') := deletePost cl id (author p) w in
  cloud_calls w' = cloud_calls w ++ [CallDestroy ref]
  ∧ users w' = users w ∧ tmpfiles w' = tmpfiles w
  ∧ match destroy cl ref with
    | inr _ =>
        r = inr (json 200 true "Post deleted successfully")
        ∧ posts w' = delete id (posts w)
    | inl e =>
        r = inr (json_error 500 (MsgError e))
        ∧ posts w' = posts w
    end.
Proof.
  intros Hp Href Ht. destruct (destroy cl ref) as [e|result] eqn:He.
  - by rewrite (deletePost_destroy_rejected cl w id p ref e).
  - by rewrite (deletePost_destroy_returned cl w id p ref result).
Qed.

Lemma deletePost_media_cleanup_witness :
  posts Sample.world !! 1 = Some Sample.photo ∧
  publicId_of Sample.photo = Some (lit "https://res.example/posts/a.jpg") ∧
  truthy (lit "https://res.example/posts/a.jpg") = true ∧
  let '(r, w') := deletePost Sample.reachable 1 (author Sample.photo) Sample.world in
  cloud_calls w'
  = cloud_calls Sample.world ++ [CallDestroy (lit "https://res.example/posts/a.jpg")]
  ∧ users w' = users Sample.world ∧ tmpfiles w' = tmpfiles Sample.world
  ∧ match destroy Sample.reachable (lit "https://res.example/posts/a.jpg") with
    | inr _ =>
        r = inr (json 200 true "Post deleted successfully")
        ∧ posts w' = delete 1 (posts Sample.world)
    | inl e =>
        r = inr (json_error 500 (MsgError e))
        ∧ posts w' = posts Sample.world
    end.
Proof.
  split; [reflexivity|]. split; [reflexivity|]. split; [reflexivity|].
  apply (deletePost_media_cleanup Sample.reachable Sample.world 1 Sample.photo
           (lit "https://res.example/posts/a.jpg")); reflexivity.
Defined.

(** ** What the engagement handlers write *)

Lemma elem_of_toggled (present : bool) (x y : ObjectId) (l : list ObjectId) :
  y ∈ toggled present x l ↔
  if present then y ∈ l ∧ y ≠ x else y ∈ l ∨ y = x.
Proof.
  unfold toggled. destruct present.
  - rewrite list_elem_of_filter. tauto.
  - rewrite elem_of_app, list_elem_of_singleton. tauto.
Qed.

(** Rewrites memberships in toggled arrays into memberships in the
    arrays they come from. *)
Ltac toggled_mem :=
  cbn [negb]; repeat (rewrite elem_of_toggled; cbn beta iota).

Lemma NoDup_toggled (x : ObjectId) (l : list ObjectId) :
  NoDup l → NoDup (toggled (includes x l) x l).
Proof.
  intros Hl. unfold toggled. destruct (includes x l) eqn:E.
  - by apply NoDup_filter.
  - apply includes_false in E. apply NoDup_app. split; [done|].
    split; [|apply NoDup_singleton].
    intros y Hy ->%list_elem_of_singleton. done.
Qed.

Lemma likePost_posts (target user_id : ObjectId) (w : World) :
  posts (snd (likePost target user_id w)) = posts w
  ∨ ∃ pt, posts w !! target = Some pt ∧ (user_id ∉ likes pt)
          ∧ posts (snd (likePost target user_id w))
            = <[target := set_likes (likes pt ++ [user_id]) pt]> (posts w).
Proof.
  unfold likePost. run. destruct (posts w !! target) as [pt|] eqn:Hp; [|by left].
  destruct (includes user_id (likes pt)) eqn:Hin; [by left|].
  destruct (validate_post _); simpl; [|by left].
  right. exists pt. by apply includes_false in Hin.
Qed.

Lemma dislikePost_posts (target user_id : ObjectId) (w : World) :
  posts (snd (dislikePost target user_id w)) = posts w
  ∨ ∃ pt, posts w !! target = Some pt
          ∧ posts (snd (dislikePost target user_id w))
            = <[target := set_likes (filter (λ x, x ≠ user_id) (likes pt)) pt]> (posts w).
Proof.
  unfold dislikePost. run. destruct (posts w !! target) as [pt|] eqn:Hp; [|by left].
  destruct (includes user_id (likes pt)) eqn:Hin; simpl; [|by left].
  destruct (validate_post _); simpl; [|by left].
  right. by exists pt.
Qed.

Lemma bookmarkPost_posts (target user_id : ObjectId) (w : World) :
  posts (snd (bookmarkPost target user_id w)) = posts w
  ∨ ∃ pt, posts w !! target = Some pt
          ∧ posts (snd (bookmarkPost target user_id w))
            = <[target := set_bookmarks
                  (toggled (includes user_id (bookmarks pt)) user_id (bookmarks pt)) pt]>
                (posts w).
Proof.
  unfold bookmarkPost. run. destruct (posts w !! target) as [pt|] eqn:Hp; [|by left].
  destruct (includes user_id (bookmarks pt)) eqn:Hin;
    (destruct (users w !! user_id) as [u|]; simpl; [|by left]);
    (destruct (validate_post _); simpl; [|by left]);
    right; exists pt; by rewrite Hin.
Qed.

(** C5: a stored post whose [likes] and [bookmarks] hold each user id at
    most once still exists and still does so after [likePost],
    [dislikePost] and [bookmarkPost], by any user and whichever post the
    operation addresses. *)
Theorem engagement_keeps_ids_unique (w : World) (id target user_id : ObjectId) :
  unique_at id w →
  unique_at id (snd (likePost target user_id w))
  ∧ unique_at id (snd (dislikePost target user_id w))
  ∧ unique_at id (snd (bookmarkPost target user_id w)).
Proof.
  intros (p & Hp & Hl & Hb). unfold unique_at. split; [|split].
  - destruct (likePost_posts target user_id w) as [->|(pt & Ht & Hnot & ->)];
      [by exists p|].
    destruct (decide (target = id)) as [->|Hne].
    + rewrite lookup_insert_eq. eexists; split; [done|]. simplify_eq. simpl.
      split; [|done]. apply NoDup_app. split; [done|].
      split; [|apply NoDup_singleton].
      by intros y Hy ->%list_elem_of_singleton.
    + rewrite lookup_insert_ne by done. by exists p.
  - destruct (dislikePost_posts target user_id w) as [->|(pt & Ht & ->)];
      [by exists p|].
    destruct (decide (target = id)) as [->|Hne].
    + rewrite lookup_insert_eq. eexists; split; [done|]. simplify_eq. simpl.
      split; [|done]. by apply NoDup_filter.
    + rewrite lookup_insert_ne by done. by exists p.
  - destruct (bookmarkPost_posts target user_id w) as [->|(pt & Ht & ->)];
      [by exists p|].
    destruct (decide (target = id)) as [->|Hne].
    + rewrite lookup_insert_eq. eexists; split; [done|]. simplify_eq. simpl.
      split; [done|]. by apply NoDup_toggled.
    + rewrite lookup_insert_ne by done. by exists p.
Qed.

Lemma engagement_keeps_ids_unique_witness :
  unique_at 1 Sample.world ∧
  unique_at 1 (snd (likePost 1 Sample.bob Sample.world))
  ∧ unique_at 1 (snd (dislikePost 1 Sample.bob Sample.world))
  ∧ unique_at 1 (snd (bookmarkPost 1 Sample.bob Sample.world)).
Proof.
  assert (unique_at 1 Sample.world) as H.
  { exists Sample.photo. split; [reflexivity|]. split; compute_done. }
  split; [exact H|].
  apply (engagement_keeps_ids_unique Sample.world 1 1 Sample.bob H).
Defined.

(** ** Bookmarks *)

(** One [bookmarkPost] on a stored, valid post by a stored user: both
    documents are written, each side toggled according to the membership
    read from the post. *)
Lemma bookmarkPost_step (w : World) (id user_id : ObjectId) (p : Post) (u : User) :
  posts w !! id = Some p →
  users w !! user_id = Some u →
  validate_post p = [] →
  let was := includes user_id (bookmarks p) in
  bookmarkPost id user_id w
  = (inr (json 200 true (if was then "Post removed from bookmarks"
                         else "Post bookmarked successfully")),
     set_users (insert user_id (set_u_bookmarks (toggled was id (u_bookmarks u)) u))
       (set_posts (insert id (set_bookmarks (toggled was user_id (bookmarks p)) p)) w)).
Proof.
  intros Hp Hu Hv was. unfold bookmarkPost. run. rewrite Hp, Hu. subst was.
  destruct (includes user_id (bookmarks p)); simpl;
    rewrite validate_post_set_bookmarks, Hv; reflexivity.
Qed.

(** C4 does not hold as the specification states it, for every post and
    user: in a world where bob's array lists post 1 while the post's array
    does not list bob, two successive [bookmarkPost] calls by bob both
    succeed, and post 1, which was in bob's [bookmarks] at the start, is
    not in it at the end. *)
Lemma bookmarkPost_twice_loses_stale_bookmark :
  posts Sample.stale_world !! 1 = Some Sample.photo
  ∧ users Sample.stale_world !! Sample.bob = Some Sample.bob_stale
  ∧ validate_post Sample.photo = []
  ∧ 1 ∈ u_bookmarks Sample.bob_stale
  ∧ fst (bookmarkPost 1 Sample.bob Sample.stale_world)
    = inr (json 200 true "Post bookmarked successfully")
  ∧ fst (bookmarkPost 1 Sample.bob
           (snd (bookmarkPost 1 Sample.bob Sample.stale_world)))
    = inr (json 200 true "Post removed from bookmarks")
  ∧ ∃ u2,
      users (snd (bookmarkPost 1 Sample.bob
                    (snd (bookmarkPost 1 Sample.bob Sample.stale_world))))
        !! Sample.bob = Some u2
      ∧ (1 ∉ u_bookmarks u2).
Proof.
  split; [reflexivity|]. split; [reflexivity|]. split; [reflexivity|].
  split; [compute_done|]. split; [reflexivity|]. split; [reflexivity|].
  eexists. split; [reflexivity|]. compute_done.
Qed.

(** C4, amended: for a stored (valid) post and a stored user, each of two
    successive [bookmarkPost] calls succeeds and leaves the two bookmark
    arrays mirror-consistent, whether or not they were before; the first
    call flips the user's membership in the post's [bookmarks]; after the
    second call every id is in the post's [bookmarks] exactly when it was
    at the start; and every id is in the user's [bookmarks] exactly when
    it was at the start provided the two arrays mirrored each other
    before the first call. *)
Theorem bookmarkPost_twice (w : World) (id user_id : ObjectId) (p : Post) (u : User) :
  posts w !! id = Some p →
  users w !! user_id = Some u →
  validate_post p = [] →
  ∃ r1 w1 p1 u1 r2 w2 p2 u2,
    bookmarkPost id user_id w = (inr r1, w1) ∧ status r1 = 200
    ∧ posts w1 !! id = Some p1 ∧ users w1 !! user_id = Some u1
    ∧ (user_id ∈ bookmarks p1 ↔ id ∈ u_bookmarks u1)
    ∧ (user_id ∈ bookmarks p1 ↔ user_id ∉ bookmarks p)
    ∧ bookmarkPost id user_id w1 = (inr r2, w2) ∧ status r2 = 200
    ∧ posts w2 !! id = Some p2 ∧ users w2 !! user_id = Some u2
    ∧ (user_id ∈ bookmarks p2 ↔ id ∈ u_bookmarks u2)
    ∧ (∀ x, x ∈ bookmarks p2 ↔ x ∈ bookmarks p)
    ∧ ((user_id ∈ bookmarks p ↔ id ∈ u_bookmarks u) →
       ∀ y, y ∈ u_bookmarks u2 ↔ y ∈ u_bookmarks u).
Proof.
  intros Hp Hu Hv.
  pose proof (bookmarkPost_step w id user_id p u Hp Hu Hv) as H1. simpl in H1.
  set (was := includes user_id (bookmarks p)) in *.
  set (p1 := set_bookmarks (toggled was user_id (bookmarks p)) p) in *.
  set (u1 := set_u_bookmarks (toggled was id (u_bookmarks u)) u) in *.
  set (w1 := set_users (insert user_id u1) (set_posts (insert id p1) w)) in *.
  assert (posts w1 !! id = Some p1) as Hp1 by apply lookup_insert_eq.
  assert (users w1 !! user_id = Some u1) as Hu1 by apply lookup_insert_eq.
  assert (includes user_id (bookmarks p1) = negb was) as Hflip.
  { subst p1 was. simpl. destruct (includes user_id (bookmarks p)) eqn:E; cbn [negb].
    - apply includes_false. rewrite elem_of_toggled. tauto.
    - apply includes_true. rewrite elem_of_toggled. tauto. }
  pose proof (bookmarkPost_step w1 id user_id p1 u1 Hp1 Hu1 Hv) as H2.
  cbv zeta in H2. rewrite Hflip in H2.
  assert (was = true ↔ user_id ∈ bookmarks p) as Hwas by apply includes_true.
  do 8 eexists.
  split; [exact H1|]. split; [done|]. split; [exact Hp1|]. split; [exact Hu1|].
  split; [|split].
  { subst p1 u1. cbn [bookmarks u_bookmarks set_bookmarks set_u_bookmarks].
    destruct was; toggled_mem; intuition congruence. }
  { subst p1. cbn [bookmarks set_bookmarks].
    destruct was; toggled_mem; intuition congruence. }
  split; [exact H2|]. split; [done|].
  split; [apply lookup_insert_eq|]. split; [apply lookup_insert_eq|].
  subst p1 u1. cbn [bookmarks u_bookmarks set_bookmarks set_u_bookmarks].
  split; [|split].
  - destruct was; toggled_mem; intuition congruence.
  - intros x. destruct (decide (x = user_id)) as [->|];
      destruct was; toggled_mem; intuition congruence.
  - intros Hmirror y. destruct (decide (y = id)) as [->|];
      destruct was; toggled_mem; intuition congruence.
Qed.

Lemma bookmarkPost_twice_witness :
  posts Sample.world !! 1 = Some Sample.photo ∧
  users Sample.world !! Sample.alice = Some Sample.alice_doc ∧
  validate_post Sample.photo = [] ∧
  ∃ r1 w1 p1 u1 r2 w2 p2 u2,
    bookmarkPost 1 Sample.alice Sample.world = (inr r1, w1) ∧ status r1 = 200
    ∧ posts w1 !! 1 = Some p1 ∧ users w1 !! Sample.alice = Some u1
    ∧ (Sample.alice ∈ bookmarks p1 ↔ 1 ∈ u_bookmarks u1)
    ∧ (Sample.alice ∈ bookmarks p1 ↔ Sample.alice ∉ bookmarks Sample.photo)
    ∧ bookmarkPost 1 Sample.alice w1 = (inr r2, w2) ∧ status r2 = 200
    ∧ posts w2 !! 1 = Some p2 ∧ users w2 !! Sample.alice = Some u2
    ∧ (Sample.alice ∈ bookmarks p2 ↔ 1 ∈ u_bookmarks u2)
    ∧ (∀ x, x ∈ bookmarks p2 ↔ x ∈ bookmarks Sample.photo)
    ∧ ((Sample.alice ∈ bookmarks Sample.photo ↔ 1 ∈ u_bookmarks Sample.alice_doc) →
       ∀ y, y ∈ u_bookmarks u2 ↔ y ∈ u_bookmarks Sample.alice_doc).
Proof.
  split; [reflexivity|]. split; [reflexivity|]. split; [reflexivity|].
  apply (bookmarkPost_twice Sample.world 1 Sample.alice Sample.photo
           Sample.alice_doc);
    reflexivity.
Defined.

(** Without the mirror assumption the round trip does not hold: when the
    user's array already lists the post while the post's array does not
    list the user, two calls drop the post from the user's array. *)
Example bookmarkPost_twice_needs_mirror :
  let w := mkWorld {[ 1 := Sample.photo ]}
                   {[ Sample.bob := set_u_bookmarks [1] Sample.bob_doc ]} ∅ [] in
  let w2 := snd (bookmarkPost 1 Sample.bob (snd (bookmarkPost 1 Sample.bob w))) in
  u_bookmarks <$> users w !! Sample.bob = Some [1]
  ∧ u_bookmarks <$> users w2 !! Sample.bob = Some [].
Proof. split; reflexivity. Qed.

(** ** The allow-list of media types *)

(** A file of a type outside the allow-list: its temporary file is
    unlinked and the request is answered 400, before any upload. *)
Lemma addNewPost_type_rejected (cl : Cloudinary) (w : World) (userId : ObjectId)
    (caption : option str) (file : File) :
  path file ∈ tmpfiles w →
  mimetype file ∉ allowedTypes →
  addNewPost cl (Some userId) caption (Some file) w
  = (inr (json 400 false "Invalid file type. Only JPEG, PNG, and MP4 are allowed"),
     set_tmpfiles (λ s, s ∖ {[path file]}) w).
Proof.
  intros Hf Hm. unfold addNewPost, unlinkAsync. run.
  apply includes_false in Hm. rewrite Hm. simpl.
  by rewrite bool_decide_eq_true_2.
Qed.

(** A file of a type on the allow-list is uploaded: the call to the media
    service is made, once, and the answer is never a 400. *)
Lemma addNewPost_type_accepted (cl : Cloudinary) (w : World) (userId : ObjectId)
    (caption : option str) (file : File) :
  mimetype file ∈ allowedTypes →
  ∃ r w', addNewPost cl (Some userId) caption (Some file) w = (inr r, w')
          ∧ cloud_calls w' = cloud_calls w ++ [CallUpload (path file) (upload_options file)]
          ∧ status r ≠ 400.
Proof.
  intros Hm. apply includes_true in Hm. unfold addNewPost.
  change (mkUploadOptions _ _ _) with (upload_options file).
  generalize (upload_options file) as options. intros options.
  unfold uploader_upload, unlinkAsync, Post_create, validate_post. run.
  rewrite Hm. simpl.
  repeat (case_match; unfold throw, ret in *; simpl in *; simplify_eq);
    do 2 eexists; (split; [reflexivity|]); split; done.
Qed.

(** C9: an attached file, present in the upload directory, is accepted
    exactly when its MIME type is [image/jpeg], [image/png], [image/jpg]
    or [video/mp4].  With one of these the upload call is made and the
    answer is not a 400; with any other type the answer is 400 "Invalid
    file type", the temporary file is gone when the handler returns, no
    call to the media service is made and no post document is created. *)
Theorem addNewPost_mime_allow_list (cl : Cloudinary) (w : World) (userId : ObjectId)
    (caption : option str) (file : File) :
  path file ∈ tmpfiles w →
  ∃ r w',
    addNewPost cl (Some userId) caption (Some file) w = (inr r, w')
    ∧ (mimetype file ∈ [lit "image/jpeg"; lit "image/png"; lit "image/jpg"; lit "video/mp4"] →
       cloud_calls w' = cloud_calls w ++ [CallUpload (path file) (upload_options file)]
       ∧ status r ≠ 400)
    ∧ (mimetype file ∉ [lit "image/jpeg"; lit "image/png"; lit "image/jpg"; lit "video/mp4"] →
       r = json 400 false "Invalid file type. Only JPEG, PNG, and MP4 are allowed"
       ∧ (path file ∉ tmpfiles w')
       ∧ cloud_calls w' = cloud_calls w
       ∧ posts w' = posts w).
Proof.
  intros Hf. fold allowedTypes.
  destruct (decide (mimetype file ∈ allowedTypes)) as [Hin|Hout].
  - destruct (addNewPost_type_accepted cl w userId caption file Hin)
      as (r & w' & Hrun & Hcalls & Hstatus).
    exists r, w'. split; [exact Hrun|]. split; [done|]. by intros ?.
  - do 2 eexists.
    split; [exact (addNewPost_type_rejected cl w userId caption file Hf Hout)|].
    split; [by intros ?|]. intros _. simpl. split; [done|].
    split; [|done]. rewrite elem_of_difference, elem_of_singleton. tauto.
Qed.

Lemma addNewPost_mime_allow_list_witness :
  lit "uploads/f1" ∈ tmpfiles Sample.world ∧
  ∃ r w',
    addNewPost Sample.reachable (Some Sample.alice) (Some (lit "my thesis"))
               (Some (mkFile (lit "application/pdf") (lit "uploads/f1"))) Sample.world
    = (inr r, w')
    ∧ (lit "application/pdf"
         ∈ [lit "image/jpeg"; lit "image/png"; lit "image/jpg"; lit "video/mp4"] →
       cloud_calls w'
       = cloud_calls Sample.world
         ++ [CallUpload (lit "uploads/f1")
               (upload_options (mkFile (lit "application/pdf") (lit "uploads/f1")))]
       ∧ status r ≠ 400)
    ∧ (lit "application/pdf"
         ∉ [lit "image/jpeg"; lit "image/png"; lit "image/jpg"; lit "video/mp4"] →
       r = json 400 false "Invalid file type. Only JPEG, PNG, and MP4 are allowed"
       ∧ (lit "uploads/f1" ∉ tmpfiles w')
       ∧ cloud_calls w' = cloud_calls Sample.world
       ∧ posts w' = posts Sample.world).
Proof.
  assert (lit "uploads/f1" ∈ tmpfiles Sample.world) as Hf by compute_done.
  split; [exact Hf|].
  apply (addNewPost_mime_allow_list Sample.reachable Sample.world Sample.alice
           (Some (lit "my thesis"))
           (mkFile (lit "application/pdf") (lit "uploads/f1")) Hf).
Defined.

(** The specification's scenario, evaluated: a PDF is turned away and its
    temporary file removed, with no upload and no new document. *)
Example addNewPost_pdf :
  addNewPost Sample.reachable (Some Sample.alice) (Some (lit "my thesis"))
             (Some (mkFile (lit "application/pdf") (lit "uploads/f1"))) Sample.world
  = (inr (json 400 false "Invalid file type. Only JPEG, PNG, and MP4 are allowed"),
     mkWorld (posts Sample.world) (users Sample.world) ∅ []).
Proof. vm_compute. reflexivity. Qed.

(** ** The stored posts are valid

    Every write of a post goes through validation ([Post.create],
    [post.save]), so the posts of a world reached from a valid one
    validate: the validity assumed of a stored post above holds in all
    such worlds. *)

Section Preserves.

Context (I : World → Prop).

Lemma preserves_ret {A} (a : A) : preserves I (ret a).
Proof. by intros w. Qed.

Lemma preserves_throw {A} (e : Error) : preserves I (@throw A e).
Proof. by intros w. Qed.

Lemma preserves_get : preserves I get.
Proof. by intros w. Qed.

Lemma preserves_modify (f : World → World) :
  (∀ w, I w → I (f w)) → preserves I (modify f).
Proof. intros Hf w Hw. by apply Hf. Qed.

Lemma preserves_bind {A B} (m : M A) (k : A → M B) :
  preserves I m → (∀ a, preserves I (k a)) → preserves I (bind m k).
Proof.
  intros Hm Hk w Hw. unfold bind. specialize (Hm w Hw).
  destruct (m w) as [[e|a] w']; simpl in *; [done|]. by apply Hk.
Qed.

Lemma preserves_try_catch {A} (m : M A) (h : Error → M A) :
  preserves I m → (∀ e, preserves I (h e)) → preserves I (try_catch m h).
Proof.
  intros Hm Hh w Hw. unfold try_catch. specialize (Hm w Hw).
  destruct (m w) as [[e|a] w']; simpl in *; [|done]. by apply Hh.
Qed.

Lemma preserves_promise_all2 {A B} (a : M A) (b : M B) :
  preserves I a → preserves I b → preserves I (promise_all2 a b).
Proof.
  intros Ha Hb w Hw. unfold promise_all2. specialize (Ha w Hw).
  destruct (a w) as [ra w1]. specialize (Hb w1 Ha).
  destruct (b w1) as [rb w2]. by destruct ra, rb.
Qed.

Lemma preserves_deref {A} (x : option A) : preserves I (deref x).
Proof. destruct x; [apply preserves_ret | apply preserves_throw]. Qed.

End Preserves.

Lemma store_valid_empty (us : gmap ObjectId User) (fs : gset str) (cs : list CloudCall) :
  store_valid (mkWorld ∅ us fs cs).
Proof. intros id p. simpl. by rewrite lookup_empty. Qed.

Lemma store_valid_insert (id : ObjectId) (p : Post) (w : World) :
  validate_post p = [] → store_valid w → store_valid (set_posts (insert id p) w).
Proof.
  intros Hp Hw id' p'. simpl. rewrite lookup_insert.
  case_decide; [by intros [= <-] | apply Hw].
Qed.

Lemma store_valid_delete (id : ObjectId) (w : World) :
  store_valid w → store_valid (set_posts (delete id) w).
Proof.
  intros Hw id' p'. simpl. rewrite lookup_delete.
  case_decide; [done | apply Hw].
Qed.

Lemma preserves_save (id : ObjectId) (p : Post) : preserves store_valid (save id p).
Proof.
  intros w Hw. destruct (validate_post p) eqn:E.
  - rewrite save_valid by done. by apply store_valid_insert.
  - rewrite save_invalid by congruence. done.
Qed.

Lemma preserves_Post_create (d : PostData) : preserves store_valid (Post_create d).
Proof.
  intros w Hw. unfold Post_create. run.
  destruct (validate_post (new_Post d)) eqn:E; simpl; [|done].
  by apply store_valid_insert.
Qed.

Lemma preserves_unlinkAsync (path : str) : preserves store_valid (unlinkAsync path).
Proof. intros w Hw. unfold unlinkAsync. by case_bool_decide. Qed.

Create HintDb preserves.

#[local] Hint Resolve preserves_ret preserves_throw preserves_get preserves_deref
  preserves_save preserves_Post_create preserves_unlinkAsync
  store_valid_delete : preserves.

(** Breaks a handler into its calls; what is left are the branches. *)
Ltac preserve :=
  repeat match goal with
    | |- preserves _ (try_catch _ _) => apply preserves_try_catch
    | |- preserves _ (bind _ _) => apply preserves_bind
    | |- preserves _ (promise_all2 _ _) => apply preserves_promise_all2
    | |- preserves _ (modify _) => apply preserves_modify
    | |- ∀ _, _ => intro
    | |- preserves _ (match _ with _ => _ end) => case_match
    | |- preserves _ (let _ := _ in _) => cbv zeta
    | |- _ => progress auto with preserves
    end.

(** X22: [addNewPost], [likePost], [dislikePost], [addComment],
    [deletePost] and [bookmarkPost] keep the store valid: run in a world
    whose stored posts all pass the schema's validation, each leaves a
    world whose stored posts all pass it, whatever it answers. *)
Theorem handlers_keep_store_valid (cl : Cloudinary) :
  (∀ userId caption file, preserves store_valid (addNewPost cl userId caption file))
  ∧ (∀ id user_id, preserves store_valid (likePost id user_id))
  ∧ (∀ id user_id, preserves store_valid (dislikePost id user_id))
  ∧ (∀ id user_id text, preserves store_valid (addComment id user_id text))
  ∧ (∀ id user_id, preserves store_valid (deletePost cl id user_id))
  ∧ (∀ id user_id, preserves store_valid (bookmarkPost id user_id)).
Proof.
  repeat apply conj; intros;
    unfold addNewPost, likePost, dislikePost, addComment, deletePost, bookmarkPost,
      uploader_upload, uploader_destroy, existsSync, findById, User_findById,
      findOne_comment, User_save, deleteOne;
    preserve.
Qed.

(** ** Creating a post with media *)

Lemma validate_post_new (d : PostData) (ty : str) :
  pd_mediaType d = Some ty → ty ∈ mediaType_enum →
  validate_post (new_Post d) = [].
Proof.
  intros Hd Hty. unfold validate_post, validate_mediaType. simpl. rewrite Hd.
  unfold checkRequired, checkEnum. simpl.
  apply includes_true in Hty. rewrite Hty.
  destruct ty; [by vm_compute in Hty | done].
Qed.

(** With a file of an allowed type that the media service stores as an
    image or a video, the post is created under a new id, with the trimmed
    caption and the media reference in the field its type names. *)
Lemma addNewPost_with_media (cl : Cloudinary) (w : World) (userId : ObjectId)
    (caption : option str) (file : File) (res : UploadResult) :
  mimetype file ∈ allowedTypes →
  path file ∈ tmpfiles w →
  upload cl (path file) (upload_options file) = inr res →
  truthy (secure_url res) = true →
  r_resource_type res ∈ mediaType_enum →
  ∃ id p w',
    addNewPost cl (Some userId) caption (Some file) w
    = (inr (mkResponse 201 true (MsgLit "Post created successfully")
              (PayloadPost (Some (mkPopulatedPost id p (populate_user true w' userId) [])))),
       w')
    ∧ posts w !! id = None
    ∧ posts w' = <[id := p]> (posts w)
    ∧ p = mkPost (cast_trim caption)
                 (if bool_decide (r_resource_type res = lit "video")
                  then None else Some (secure_url res))
                 (if bool_decide (r_resource_type res = lit "video")
                  then Some (secure_url res) else None)
                 (Some (r_resource_type res)) userId [] [] [].
Proof.
  intros Hm Hf Hup Hurl Hty.
  apply includes_true in Hm. unfold addNewPost.
  change (mkUploadOptions _ _ _) with (upload_options file).
  unfold uploader_upload, unlinkAsync, Post_create. run.
  rewrite Hm. simpl. rewrite Hup. simpl.
  rewrite bool_decide_eq_true_2 by done. simpl.
  rewrite Hurl.
  destruct (bool_decide (r_resource_type res = lit "video")) eqn:Hv; simpl;
    eexists (fresh (dom (posts w))), _, _;
    erewrite validate_post_new by (simpl; done); simpl;
    rewrite lookup_insert_eq; simpl;
    (split; [reflexivity|]); (split; [|done]);
    apply not_elem_of_dom, is_fresh.
Qed.

(** The spec's scenario of a video without caption, evaluated. *)
Example addNewPost_video :
  let cl := mkCloudinary
    (λ _ _, inr (mkUploadResult (lit "https://res.example/posts/v.mp4") (lit "video")))
    (λ _, inr (lit "ok")) in
  ∃ id w',
    addNewPost cl (Some Sample.alice) None
               (Some (mkFile (lit "video/mp4") (lit "uploads/f1"))) Sample.world
    = (inr (mkResponse 201 true (MsgLit "Post created successfully")
        (PayloadPost (Some (mkPopulatedPost id
           (mkPost None None (Some (lit "https://res.example/posts/v.mp4"))
                   (Some (lit "video")) Sample.alice [] [] [])
           (Some (mkAuthorView Sample.alice (lit "alice") (Some (lit "Alice")) (lit "")))
           [])))), w')
    ∧ tmpfiles w' = ∅.
Proof. do 2 eexists. split; vm_compute; reflexivity. Qed.

(** * Further properties of the handlers *)

(** ** [addNewPost]: the remaining outcomes *)

(** X1: when the media service rejects the upload of an accepted file,
    [addNewPost] answers 500 "Upload failed: ..." with the service's
    error, the temporary file is unlinked, one upload call was made and no
    post document is created. *)
Theorem addNewPost_upload_failed (cl : Cloudinary) (w : World) (userId : ObjectId)
    (caption : option str) (file : File) (e : Error) :
  mimetype file ∈ allowedTypes →
  path file ∈ tmpfiles w →
  upload cl (path file) (upload_options file) = inl e →
  addNewPost cl (Some userId) caption (Some file) w
  = (inr (json_error 500 (MsgUploadFailed e)),
     set_tmpfiles (λ s, s ∖ {[path file]})
       (log_call (CallUpload (path file) (upload_options file)) w)).
Proof.
  intros Hm Hf Hup. apply includes_true in Hm. unfold addNewPost.
  change (mkUploadOptions _ _ _) with (upload_options file).
  unfold uploader_upload, unlinkAsync. run.
  rewrite Hm. simpl. rewrite Hup. simpl.
  by rewrite !bool_decide_eq_true_2.
Qed.

Lemma addNewPost_upload_failed_witness :
  lit "image/png" ∈ allowedTypes ∧
  lit "uploads/f1" ∈ tmpfiles Sample.world ∧
  upload Sample.unreachable (lit "uploads/f1")
         (upload_options (mkFile (lit "image/png") (lit "uploads/f1")))
  = inl (CloudinaryError (lit "ECONNRESET")) ∧
  addNewPost Sample.unreachable (Some Sample.alice) (Some (lit "hi"))
             (Some (mkFile (lit "image/png") (lit "uploads/f1"))) Sample.world
  = (inr (json_error 500 (MsgUploadFailed (CloudinaryError (lit "ECONNRESET")))),
     set_tmpfiles (λ s, s ∖ {[lit "uploads/f1"]})
       (log_call (CallUpload (lit "uploads/f1")
                    (upload_options (mkFile (lit "image/png") (lit "uploads/f1"))))
                 Sample.world)).
Proof.
  assert (lit "image/png" ∈ allowedTypes) as Hm by compute_done.
  assert (lit "uploads/f1" ∈ tmpfiles Sample.world) as Hf by compute_done.
  split; [exact Hm|]. split; [exact Hf|]. split; [reflexivity|].
  apply (addNewPost_upload_failed Sample.unreachable Sample.world Sample.alice
           (Some (lit "hi")) (mkFile (lit "image/png") (lit "uploads/f1"))
           (CloudinaryError (lit "ECONNRESET")) Hm Hf).
  reflexivity.
Defined.

(** X2: when the media service stores an accepted file as an image or a
    video under a non-empty URL, [addNewPost] answers 201 with the
    populated document; the document is stored under an id that was free,
    with the trimmed caption and the URL in the field its type names, the
    temporary file is gone and one upload call was made.  The trimmed
    caption and the URL are taken to be well-formed UTF-16, which the
    store keeps as it is. *)
Theorem addNewPost_created (cl : Cloudinary) (w : World) (userId : ObjectId)
    (caption : option str) (file : File) (res : UploadResult) :
  mimetype file ∈ allowedTypes →
  path file ∈ tmpfiles w →
  upload cl (path file) (upload_options file) = inr res →
  truthy (secure_url res) = true →
  r_resource_type res ∈ mediaType_enum →
  isWellFormed_opt (cast_trim caption) = true →
  isWellFormed (secure_url res) = true →
  ∃ id,
    posts w !! id = None
    ∧ addNewPost cl (Some userId) caption (Some file) w
      = (inr (mkResponse 201 true (MsgLit "Post created successfully")
                (PayloadPost (Some (mkPopulatedPost id
                   (post_of_upload userId caption res)
                   (populate_user true w userId) [])))),
         set_posts (insert id (post_of_upload userId caption res))
           (set_tmpfiles (λ s, s ∖ {[path file]})
              (log_call (CallUpload (path file) (upload_options file)) w))).
Proof.
  intros Hm Hf Hup Hurl Hty _ _.
  apply includes_true in Hm. unfold addNewPost, post_of_upload.
  change (mkUploadOptions _ _ _) with (upload_options file).
  unfold uploader_upload, unlinkAsync, Post_create. run.
  rewrite Hm. simpl. rewrite Hup. simpl.
  rewrite bool_decide_eq_true_2 by done. simpl.
  rewrite Hurl.
  exists (fresh (dom (posts w))). split; [apply not_elem_of_dom, is_fresh|].
  destruct (bool_decide (r_resource_type res = lit "video")) eqn:Hv; simpl;
    erewrite validate_post_new by (simpl; done); simpl;
    rewrite lookup_insert_eq; reflexivity.
Qed.

Lemma addNewPost_created_witness :
  lit "image/png" ∈ allowedTypes ∧
  lit "uploads/f1" ∈ tmpfiles Sample.world ∧
  upload Sample.reachable (lit "uploads/f1")
         (upload_options (mkFile (lit "image/png") (lit "uploads/f1")))
  = inr (mkUploadResult (lit "https://res.example/posts/n.jpg") (lit "image")) ∧
  truthy (lit "https://res.example/posts/n.jpg") = true ∧
  lit "image" ∈ mediaType_enum ∧
  isWellFormed_opt (cast_trim (Some (lit " hi "))) = true ∧
  isWellFormed (lit "https://res.example/posts/n.jpg") = true ∧
  ∃ id,
    posts Sample.world !! id = None
    ∧ addNewPost Sample.reachable (Some Sample.bob) (Some (lit " hi "))
                 (Some (mkFile (lit "image/png") (lit "uploads/f1"))) Sample.world
      = (inr (mkResponse 201 true (MsgLit "Post created successfully")
                (PayloadPost (Some (mkPopulatedPost id
                   (post_of_upload Sample.bob (Some (lit " hi "))
                      (mkUploadResult (lit "https://res.example/posts/n.jpg") (lit "image")))
                   (populate_user true Sample.world Sample.bob) [])))),
         set_posts (insert id
             (post_of_upload Sample.bob (Some (lit " hi "))
                (mkUploadResult (lit "https://res.example/posts/n.jpg") (lit "image"))))
           (set_tmpfiles (λ s, s ∖ {[lit "uploads/f1"]})
              (log_call (CallUpload (lit "uploads/f1")
                           (upload_options (mkFile (lit "image/png") (lit "uploads/f1"))))
                        Sample.world))).
Proof.
  assert (lit "image/png" ∈ allowedTypes) as Hm by compute_done.
  assert (lit "uploads/f1" ∈ tmpfiles Sample.world) as Hf by compute_done.
  assert (lit "image" ∈ mediaType_enum) as Hty by compute_done.
  split; [exact Hm|]. split; [exact Hf|]. split; [reflexivity|].
  split; [reflexivity|]. split; [exact Hty|].
  split; [reflexivity|]. split; [reflexivity|].
  apply (addNewPost_created Sample.reachable Sample.world Sample.bob
           (Some (lit " hi ")) (mkFile (lit "image/png") (lit "uploads/f1"))
           (mkUploadResult (lit "https://res.example/posts/n.jpg") (lit "image"))
           Hm Hf eq_refl eq_refl Hty eq_refl eq_refl).
Defined.

(** A new document has no comments: only [mediaType] can fail. *)
Lemma validate_post_new_Post (d : PostData) :
  validate_post (new_Post d) = validate_mediaType (pd_mediaType d).
Proof. unfold validate_post. simpl. apply app_nil_r. Qed.

(** X3: when the upload of an accepted file succeeds but returns an empty
    URL or a resource type that is neither [image] nor [video], the
    schema rejects the new document: [addNewPost] answers 500 with the
    validation error on [mediaType], nothing is stored, the temporary file
    is gone, and the upload is not undone (the only remote call is the
    upload itself). *)
Theorem addNewPost_unstorable_upload (cl : Cloudinary) (w : World) (userId : ObjectId)
    (caption : option str) (file : File) (res : UploadResult) :
  mimetype file ∈ allowedTypes →
  path file ∈ tmpfiles w →
  upload cl (path file) (upload_options file) = inr res →
  truthy (secure_url res) = false ∨ r_resource_type res ∉ mediaType_enum →
  addNewPost cl (Some userId) caption (Some file) w
  = (inr (json_error 500 (MsgError (ValidationError
            [(PathMediaType,
              if truthy (secure_url res) && truthy (r_resource_type res)
              then KindEnum else KindRequired)]))),
     set_tmpfiles (λ s, s ∖ {[path file]})
       (log_call (CallUpload (path file) (upload_options file)) w)).
Proof.
  intros Hm Hf Hup Hbad.
  apply includes_true in Hm. unfold addNewPost.
  change (mkUploadOptions _ _ _) with (upload_options file).
  unfold uploader_upload, unlinkAsync, Post_create. run.
  rewrite Hm. simpl. rewrite Hup. simpl.
  rewrite bool_decide_eq_true_2 by done. simpl.
  assert (bool_decide (path file ∈ tmpfiles w ∖ {[path file]}) = false) as Hgone.
  { apply bool_decide_eq_false. rewrite elem_of_difference, elem_of_singleton. tauto. }
  destruct (truthy (secure_url res)) eqn:Hurl; simpl;
    rewrite ?validate_post_new_Post;
    unfold validate_mediaType, checkRequired, checkEnum; simpl.
  - destruct Hbad as [|Hty]; [done|]. apply includes_false in Hty.
    destruct (truthy (r_resource_type res)) eqn:Hne; simpl;
      rewrite ?Hty; unfold throw; simpl; by rewrite Hgone.
  - unfold throw. simpl. by rewrite Hgone.
Qed.

Lemma addNewPost_unstorable_upload_witness :
  let cl := mkCloudinary
    (λ _ _, inr (mkUploadResult (lit "https://res.example/posts/x") (lit "raw")))
    (λ _, inr (lit "ok")) in
  let file := mkFile (lit "image/png") (lit "uploads/f1") in
  let res := mkUploadResult (lit "https://res.example/posts/x") (lit "raw") in
  mimetype file ∈ allowedTypes ∧
  path file ∈ tmpfiles Sample.world ∧
  upload cl (path file) (upload_options file) = inr res ∧
  (truthy (secure_url res) = false ∨ r_resource_type res ∉ mediaType_enum) ∧
  addNewPost cl (Some Sample.alice) None (Some file) Sample.world
  = (inr (json_error 500 (MsgError (ValidationError
            [(PathMediaType,
              if truthy (secure_url res) && truthy (r_resource_type res)
              then KindEnum else KindRequired)]))),
     set_tmpfiles (λ s, s ∖ {[path file]})
       (log_call (CallUpload (path file) (upload_options file)) Sample.world)).
Proof.
  intros cl file res.
  assert (mimetype file ∈ allowedTypes) as Hm by compute_done.
  assert (path file ∈ tmpfiles Sample.world) as Hf by compute_done.
  assert (truthy (secure_url res) = false ∨ r_resource_type res ∉ mediaType_enum)
    as Hbad by (right; compute_done).
  split; [exact Hm|]. split; [exact Hf|]. split; [reflexivity|].
  split; [exact Hbad|].
  apply (addNewPost_unstorable_upload cl Sample.world Sample.alice None file res
           Hm Hf eq_refl Hbad).
Defined.

(** X4: a request without [req.id] is answered 401 before anything else
    happens: the world is unchanged, so a file the upload middleware
    already wrote stays in the upload directory. *)
Theorem addNewPost_unauthenticated (cl : Cloudinary) (w : World)
    (caption : option str) (file : File) :
  path file ∈ tmpfiles w →
  ∃ w', addNewPost cl None caption (Some file) w
        = (inr (json 401 false "Authentication required"), w')
        ∧ w' = w ∧ path file ∈ tmpfiles w'.
Proof. intros Hf. exists w. by repeat split. Qed.

Lemma addNewPost_unauthenticated_witness :
  lit "uploads/f1" ∈ tmpfiles Sample.world ∧
  ∃ w', addNewPost Sample.reachable None (Some (lit "hi"))
                   (Some (mkFile (lit "image/png") (lit "uploads/f1"))) Sample.world
        = (inr (json 401 false "Authentication required"), w')
        ∧ w' = Sample.world ∧ lit "uploads/f1" ∈ tmpfiles w'.
Proof.
  assert (lit "uploads/f1" ∈ tmpfiles Sample.world) as Hf by compute_done.
  split; [exact Hf|].
  apply (addNewPost_unauthenticated Sample.reachable Sample.world (Some (lit "hi"))
           (mkFile (lit "image/png") (lit "uploads/f1")) Hf).
Defined.

(** X5: whatever happens to an authenticated request that carries a file
    (type turned away, upload rejected, document rejected, post created),
    when [addNewPost] returns the file's temporary path is gone from the
    upload directory and no other file there was touched. *)
Theorem addNewPost_releases_tmpfile (cl : Cloudinary) (w : World) (userId : ObjectId)
    (caption : option str) (file : File) :
  tmpfiles (snd (addNewPost cl (Some userId) caption (Some file) w))
  = tmpfiles w ∖ {[path file]}.
Proof.
  unfold addNewPost.
  generalize (mkUploadOptions (lit "auto") (lit "posts")
    (if startsWith (lit "image") (mimetype file)
     then Some [mkTransformation 1080 1080 (lit "limit")] else None)) as options.
  intros options.
  unfold uploader_upload, unlinkAsync, Post_create, validate_post. run.
  repeat (case_match; unfold throw, ret in *; simpl in *; simplify_eq);
    repeat match goal with
      | H : bool_decide _ = true |- _ => apply bool_decide_eq_true in H
      | H : bool_decide _ = false |- _ => apply bool_decide_eq_false in H
      end;
    set_solver.
Qed.

(** The transformation goes with the three image types only. *)
Lemma upload_options_by_type (file : File) :
  mimetype file ∈ allowedTypes →
  upload_options file
  = mkUploadOptions (lit "auto") (lit "posts")
      (if bool_decide (mimetype file = lit "video/mp4") then None
       else Some [mkTransformation 1080 1080 (lit "limit")]).
Proof.
  intros Hm. unfold upload_options, allowedTypes in *.
  repeat (apply elem_of_cons in Hm as [->|Hm]); [reflexivity..|].
  by apply not_elem_of_nil in Hm.
Qed.

(** X6: for a file of an accepted type [addNewPost] makes exactly one
    call to the media service, an upload of the temporary file to the
    folder "posts" with the resource type left to the service ("auto"):
    with the 1080 by 1080 "limit" transformation for the three image
    types and with no transformation for [video/mp4]. *)
Theorem addNewPost_upload_call (cl : Cloudinary) (w : World) (userId : ObjectId)
    (caption : option str) (file : File) :
  mimetype file ∈ allowedTypes →
  cloud_calls (snd (addNewPost cl (Some userId) caption (Some file) w))
  = cloud_calls w
    ++ [CallUpload (path file)
          (mkUploadOptions (lit "auto") (lit "posts")
             (if bool_decide (mimetype file = lit "video/mp4") then None
              else Some [mkTransformation 1080 1080 (lit "limit")]))].
Proof.
  intros Hm.
  destruct (addNewPost_type_accepted cl w userId caption file Hm)
    as (r & w' & -> & Hcalls & _).
  simpl. by rewrite Hcalls, upload_options_by_type.
Qed.

Lemma addNewPost_upload_call_witness :
  lit "image/jpg" ∈ allowedTypes ∧
  cloud_calls (snd (addNewPost Sample.reachable (Some Sample.alice) None
                      (Some (mkFile (lit "image/jpg") (lit "uploads/f1")))
                      Sample.world))
  = cloud_calls Sample.world
    ++ [CallUpload (lit "uploads/f1")
          (mkUploadOptions (lit "auto") (lit "posts")
             (if bool_decide (lit "image/jpg" = lit "video/mp4") then None
              else Some [mkTransformation 1080 1080 (lit "limit")]))].
Proof.
  assert (lit "image/jpg" ∈ allowedTypes) as Hm by compute_done.
  split; [exact Hm|].
  apply (addNewPost_upload_call Sample.reachable Sample.world Sample.alice None
           (mkFile (lit "image/jpg") (lit "uploads/f1")) Hm).
Defined.

(** ** Posts that do not exist *)

(** X7: [likePost], [dislikePost], [addComment], [deletePost] and
    [getCommentsOfPost] answer 404 "Post not found" when the id names no
    stored post, and leave the world unchanged; [deletePost] makes no call
    to the media service. *)
Theorem handlers_not_found (cl : Cloudinary) (w : World) (id user_id : ObjectId)
    (text : option str) :
  posts w !! id = None →
  likePost id user_id w = (inr (json 404 false "Post not found"), w)
  ∧ dislikePost id user_id w = (inr (json 404 false "Post not found"), w)
  ∧ addComment id user_id text w = (inr (json 404 false "Post not found"), w)
  ∧ deletePost cl id user_id w = (inr (json 404 false "Post not found"), w)
  ∧ getCommentsOfPost id w
    = (inr (CommentsError (json 404 false "Post not found")), w).
Proof.
  intros Hp.
  unfold likePost, dislikePost, addComment, deletePost, getCommentsOfPost.
  run. by rewrite Hp.
Qed.

Lemma handlers_not_found_witness :
  posts Sample.world !! 2 = None ∧
  likePost 2 Sample.bob Sample.world
  = (inr (json 404 false "Post not found"), Sample.world)
  ∧ dislikePost 2 Sample.bob Sample.world
    = (inr (json 404 false "Post not found"), Sample.world)
  ∧ addComment 2 Sample.bob (Some (lit "hi")) Sample.world
    = (inr (json 404 false "Post not found"), Sample.world)
  ∧ deletePost Sample.reachable 2 Sample.bob Sample.world
    = (inr (json 404 false "Post not found"), Sample.world)
  ∧ getCommentsOfPost 2 Sample.world
    = (inr (CommentsError (json 404 false "Post not found")), Sample.world).
Proof.
  split; [reflexivity|].
  apply (handlers_not_found Sample.reachable Sample.world 2 Sample.bob
           (Some (lit "hi"))).
  reflexivity.
Defined.

(** ** Likes, continued *)

Lemma filter_ne_snoc (l : list ObjectId) (x : ObjectId) :
  x ∉ l → filter (λ y, y ≠ x) (l ++ [x]) = l.
Proof.
  intros Hx. rewrite filter_app.
  rewrite (filter_cons_False (λ y, y ≠ x)) by (intros H; by apply H).
  rewrite filter_nil, app_nil_r.
  induction l as [|a l IH]; [done|].
  apply not_elem_of_cons in Hx as [Hne Hx].
  rewrite filter_cons_True by done. by rewrite IH.
Qed.

Lemma set_likes_same (p : Post) : set_likes (likes p) p = p.
Proof. by destruct p. Qed.

(** X8: on a stored valid post the user has not liked, [likePost] followed
    by [dislikePost] by the same user succeeds twice and undoes the like:
    the stored post then has its [likes] array exactly as at the start,
    in the same order, and its caption, media, author, comments and
    [bookmarks] as they were. *)
Theorem likePost_dislikePost (w : World) (id user_id : ObjectId) (p : Post) :
  posts w !! id = Some p →
  validate_post p = [] →
  user_id ∉ likes p →
  ∃ w1 w2 p2,
    likePost id user_id w = (inr (json 200 true "Post liked successfully"), w1)
    ∧ dislikePost id user_id w1
      = (inr (json 200 true "Post disliked successfully"), w2)
    ∧ posts w2 !! id = Some p2
    ∧ likes p2 = likes p
    ∧ bookmarks p2 = bookmarks p
    ∧ same_content p p2.
Proof.
  intros Hp Hv Hnot.
  exists (set_posts (insert id (set_likes (likes p ++ [user_id]) p)) w),
         (set_posts (insert id p)
            (set_posts (insert id (set_likes (likes p ++ [user_id]) p)) w)),
         p.
  split; [|split; [|split; [apply lookup_insert_eq|]]].
  - unfold likePost. run. rewrite Hp.
    apply includes_false in Hnot. rewrite Hnot.
    by rewrite validate_post_set_likes, Hv.
  - unfold dislikePost. run. rewrite lookup_insert_eq. simpl.
    assert (includes user_id (likes p ++ [user_id]) = true) as ->
      by (apply includes_true; set_solver).
    simpl. rewrite filter_ne_snoc by done.
    change (set_likes (likes p) (set_likes (likes p ++ [user_id]) p))
      with (set_likes (likes p) p).
    by rewrite set_likes_same, Hv.
  - split; [done|]. split; [done|]. by repeat split.
Qed.

Lemma likePost_dislikePost_witness :
  posts Sample.world !! 1 = Some Sample.photo ∧
  validate_post Sample.photo = [] ∧
  (Sample.bob ∉ likes Sample.photo) ∧
  ∃ w1 w2 p2,
    likePost 1 Sample.bob Sample.world
    = (inr (json 200 true "Post liked successfully"), w1)
    ∧ dislikePost 1 Sample.bob w1
      = (inr (json 200 true "Post disliked successfully"), w2)
    ∧ posts w2 !! 1 = Some p2
    ∧ likes p2 = likes Sample.photo
    ∧ bookmarks p2 = bookmarks Sample.photo
    ∧ same_content Sample.photo p2.
Proof.
  assert (Sample.bob ∉ likes Sample.photo) as Hnot by compute_done.
  split; [reflexivity|]. split; [reflexivity|]. split; [exact Hnot|].
  apply (likePost_dislikePost Sample.world 1 Sample.bob Sample.photo
           eq_refl eq_refl Hnot).
Defined.

(** X9: on a stored valid post the user has liked, [dislikePost] answers
    200 and writes the post with every occurrence of the user's id taken
    out of [likes], the other ids staying in their order; nothing else in
    the world changes. *)
Theorem dislikePost_liked (w : World) (id user_id : ObjectId) (p : Post) :
  posts w !! id = Some p →
  validate_post p = [] →
  user_id ∈ likes p →
  ∃ p',
    dislikePost id user_id w
    = (inr (json 200 true "Post disliked successfully"),
       set_posts (insert id p') w)
    ∧ p' = set_likes (filter (λ x, x ≠ user_id) (likes p)) p
    ∧ (user_id ∉ likes p')
    ∧ (∀ x, x ≠ user_id → (x ∈ likes p' ↔ x ∈ likes p))
    ∧ likes p' `sublist_of` likes p.
Proof.
  intros Hp Hv Hin. eexists. split; [|split; [reflexivity|]].
  - unfold dislikePost. run. rewrite Hp.
    apply includes_true in Hin. rewrite Hin. simpl.
    by rewrite validate_post_set_likes, Hv.
  - simpl. split; [|split].
    + rewrite list_elem_of_filter. tauto.
    + intros x Hx. rewrite list_elem_of_filter. tauto.
    + apply sublist_filter.
Qed.

Lemma dislikePost_liked_witness :
  posts Sample.world !! 1 = Some Sample.photo ∧
  validate_post Sample.photo = [] ∧
  Sample.alice ∈ likes Sample.photo ∧
  ∃ p',
    dislikePost 1 Sample.alice Sample.world
    = (inr (json 200 true "Post disliked successfully"),
       set_posts (insert 1 p') Sample.world)
    ∧ p' = set_likes (filter (λ x, x ≠ Sample.alice) (likes Sample.photo)) Sample.photo
    ∧ (Sample.alice ∉ likes p')
    ∧ (∀ x, x ≠ Sample.alice → (x ∈ likes p' ↔ x ∈ likes Sample.photo))
    ∧ likes p' `sublist_of` likes Sample.photo.
Proof.
  assert (Sample.alice ∈ likes Sample.photo) as Hin by compute_done.
  split; [reflexivity|]. split; [reflexivity|]. split; [exact Hin|].
  apply (dislikePost_liked Sample.world 1 Sample.alice Sample.photo
           eq_refl eq_refl Hin).
Defined.

(** ** What the engagement handlers leave alone *)

Lemma same_content_refl (p : Post) : same_content p p.
Proof. by repeat split. Qed.

Lemma engagement_only_refl (target : ObjectId) (w : World) :
  engagement_only target w w.
Proof.
  repeat split. intros id p Hp. exists p.
  split; [done|]. split; [apply same_content_refl|done].
Qed.

Lemma engagement_only_insert (target : ObjectId) (w : World) (pt p' : Post) :
  posts w !! target = Some pt → same_content pt p' →
  engagement_only target w (set_posts (insert target p') w).
Proof.
  intros Ht Hsame. split; [done|]. split; [done|]. split.
  - simpl. rewrite dom_insert_L.
    assert (target ∈ dom (posts w)) by (apply elem_of_dom; eauto). set_solver.
  - intros id p Hp. simpl. destruct (decide (target = id)) as [->|Hne].
    + rewrite lookup_insert_eq. exists p'. simplify_eq.
      split; [done|]. split; [done|]. by intros [].
    + rewrite lookup_insert_ne by done. exists p.
      split; [done|]. split; [apply same_content_refl|done].
Qed.

Lemma engagement_only_set_users (target : ObjectId) (w w' : World)
    (f : gmap ObjectId User → gmap ObjectId User) :
  engagement_only target w w' → engagement_only target w (set_users f w').
Proof. by intros H. Qed.

(** X10: [likePost], [dislikePost] and [bookmarkPost] create and delete
    no post, leave the caption, media, author and comments of every post
    unchanged, leave every post other than the addressed one entirely
    unchanged, and touch neither the upload directory nor the media
    service; [likePost] and [dislikePost] also leave every user document
    unchanged. *)
Theorem engagement_touches_ids_only (w : World) (target user_id : ObjectId) :
  engagement_only target w (snd (likePost target user_id w))
  ∧ users (snd (likePost target user_id w)) = users w
  ∧ engagement_only target w (snd (dislikePost target user_id w))
  ∧ users (snd (dislikePost target user_id w)) = users w
  ∧ engagement_only target w (snd (bookmarkPost target user_id w)).
Proof.
  unfold likePost, dislikePost, bookmarkPost. run.
  destruct (posts w !! target) as [pt|] eqn:Ht; simpl;
    [|by split; [|split; [|split; [|split]]]; try apply engagement_only_refl].
  pose proof (λ p', engagement_only_insert target w pt p' Ht) as Hins.
  split; [|split; [|split; [|split]]].
  - destruct (includes user_id (likes pt)); simpl; [apply engagement_only_refl|].
    destruct (validate_post _); run; [|apply engagement_only_refl].
    by apply Hins.
  - destruct (includes user_id (likes pt)); simpl; [done|].
    by destruct (validate_post _).
  - destruct (includes user_id (likes pt)); simpl; [|apply engagement_only_refl].
    destruct (validate_post _); run; [|apply engagement_only_refl].
    by apply Hins.
  - destruct (includes user_id (likes pt)); simpl; [|done].
    by destruct (validate_post _).
  - destruct (includes user_id (bookmarks pt)); simpl;
      (destruct (users w !! user_id) as [u|]; simpl;
         [|apply engagement_only_refl]);
      (destruct (validate_post _); run;
         [apply engagement_only_set_users; by apply Hins
         |apply engagement_only_set_users, engagement_only_refl]).
Qed.

(** ** Comments, continued *)

(** Appending a comment with content keeps a valid post valid. *)
Lemma validate_post_good_last_comment (p : Post) (c : Comment) :
  validate_post p = [] →
  checkRequired (content c) = true →
  validate_post (set_comments (comments p ++ [c]) p) = [].
Proof.
  unfold validate_post. simpl. intros Hv Hc.
  apply app_eq_nil in Hv as [-> Hcs]. simpl.
  rewrite imap_app, concat_app, Hcs. simpl.
  unfold validate_comment. by rewrite Hc.
Qed.

(** The run of [addComment] that appends. *)
Lemma addComment_valid_run (w : World) (id user_id : ObjectId) (p : Post)
    (text : str) :
  posts w !! id = Some p →
  validate_post p = [] →
  trim text ≠ [] →
  addComment id user_id (Some text) w
  = (inr (mkResponse 200 true (MsgLit "Comment added successfully")
            (PayloadComment (Some (mkPopulatedComment (new_comment p user_id text)
                                     (populate_user false w user_id))))),
     set_posts (insert id (set_comments (comments p ++ [new_comment p user_id text]) p)) w).
Proof.
  intros Hp Hv Ht.
  assert (checkRequired (content (new_comment p user_id text)) = true) as Hc.
  { simpl. by destruct (trim text). }
  pose proof (validate_post_good_last_comment p _ Hv Hc) as Hv'.
  unfold addComment, push_comment. run. rewrite Hp.
  fold (new_comment p user_id text). rewrite Hv'. run.
  rewrite last_snoc. simpl. rewrite lookup_insert_eq.
  rewrite bool_decide_eq_true_2 by (simpl; rewrite fmap_app; set_solver).
  simpl. unfold populate_comments. rewrite fmap_app. simpl.
  by rewrite last_snoc.
Qed.

(** X11: on a stored valid post, [addComment] with a text that is not
    empty after trimming (and, trimmed, is well-formed UTF-16, which the
    store keeps as it is) answers 200 with the new comment, populated
    with its author; the comment holds the trimmed text, carries an id no
    comment of the post had, and is appended after the post's existing
    comments, which stay as they were. *)
Theorem addComment_appends (w : World) (id user_id : ObjectId) (p : Post)
    (text : str) :
  posts w !! id = Some p →
  validate_post p = [] →
  trim text ≠ [] →
  isWellFormed (trim text) = true →
  addComment id user_id (Some text) w
  = (inr (mkResponse 200 true (MsgLit "Comment added successfully")
            (PayloadComment (Some (mkPopulatedComment (new_comment p user_id text)
                                     (populate_user false w user_id))))),
     set_posts (insert id (set_comments (comments p ++ [new_comment p user_id text]) p)) w)
  ∧ c_id (new_comment p user_id text) ∉ c_id <$> comments p.
Proof.
  intros Hp Hv Ht _. split; [|apply infinite_is_fresh].
  by apply addComment_valid_run.
Qed.

Lemma addComment_appends_witness :
  posts Sample.world !! 1 = Some Sample.photo ∧
  validate_post Sample.photo = [] ∧
  trim (lit " wow ") ≠ [] ∧
  isWellFormed (trim (lit " wow ")) = true ∧
  addComment 1 Sample.bob (Some (lit " wow ")) Sample.world
  = (inr (mkResponse 200 true (MsgLit "Comment added successfully")
            (PayloadComment (Some (mkPopulatedComment
               (new_comment Sample.photo Sample.bob (lit " wow "))
               (populate_user false Sample.world Sample.bob))))),
     set_posts (insert 1 (set_comments
        (comments Sample.photo ++ [new_comment Sample.photo Sample.bob (lit " wow ")])
        Sample.photo)) Sample.world)
  ∧ c_id (new_comment Sample.photo Sample.bob (lit " wow "))
      ∉ c_id <$> comments Sample.photo.
Proof.
  assert (trim (lit " wow ") ≠ []) as Ht by compute_done.
  split; [reflexivity|]. split; [reflexivity|]. split; [exact Ht|].
  split; [reflexivity|].
  apply (addComment_appends Sample.world 1 Sample.bob Sample.photo (lit " wow ")
           eq_refl eq_refl Ht eq_refl).
Defined.

(** X12: [addComment] without a [text] in the request body fails like one
    with a blank text: the schema's required-content error is reported
    with status 500 and the world is unchanged. *)
Theorem addComment_no_text (w : World) (id user_id : ObjectId) (p : Post) :
  posts w !! id = Some p →
  ∃ errors,
    addComment id user_id None w
    = (inr (json_error 500 (MsgError (ValidationError errors))), w)
    ∧ (PathCommentContent (length (comments p)), KindRequired) ∈ errors.
Proof.
  intros Hp.
  pose proof (validate_post_bad_last_comment p
    (mkComment (fresh (c_id <$> comments p)) None user_id) eq_refl) as Hbad.
  exists (validate_post (push_comment None user_id p)). split; [|exact Hbad].
  unfold addComment. run. rewrite Hp.
  unfold push_comment in *. simpl in *.
  destruct (validate_post _) eqn:E; [by apply not_elem_of_nil in Hbad|done].
Qed.

Lemma addComment_no_text_witness :
  posts Sample.world !! 1 = Some Sample.photo ∧
  ∃ errors,
    addComment 1 Sample.bob None Sample.world
    = (inr (json_error 500 (MsgError (ValidationError errors))), Sample.world)
    ∧ (PathCommentContent (length (comments Sample.photo)), KindRequired) ∈ errors.
Proof.
  split; [reflexivity|].
  apply (addComment_no_text Sample.world 1 Sample.bob Sample.photo eq_refl).
Defined.

(** X13: [getCommentsOfPost] on a stored post answers 200 with the post's
    comments in their stored order, each populated with its author, and
    changes nothing; run after a successful [addComment] it returns the
    earlier comments followed by the comment that [addComment] answered
    with. *)
Theorem addComment_getCommentsOfPost (w : World) (id user_id : ObjectId) (p : Post)
    (text : str) :
  posts w !! id = Some p →
  validate_post p = [] →
  trim text ≠ [] →
  getCommentsOfPost id w
  = (inr (CommentsOk (populate_comments false w (comments p))), w)
  ∧ ∃ pc w1,
      addComment id user_id (Some text) w
      = (inr (mkResponse 200 true (MsgLit "Comment added successfully")
                (PayloadComment (Some pc))), w1)
      ∧ getCommentsOfPost id w1
        = (inr (CommentsOk (populate_comments false w (comments p) ++ [pc])), w1).
Proof.
  intros Hp Hv Ht. split.
  { unfold getCommentsOfPost. run. by rewrite Hp. }
  do 2 eexists. split; [by apply addComment_valid_run|].
  unfold getCommentsOfPost. run. rewrite lookup_insert_eq. simpl.
  unfold populate_comments. by rewrite fmap_app.
Qed.

Lemma addComment_getCommentsOfPost_witness :
  posts Sample.world !! 1 = Some Sample.photo ∧
  validate_post Sample.photo = [] ∧
  trim (lit " wow ") ≠ [] ∧
  getCommentsOfPost 1 Sample.world
  = (inr (CommentsOk (populate_comments false Sample.world (comments Sample.photo))),
     Sample.world)
  ∧ ∃ pc w1,
      addComment 1 Sample.bob (Some (lit " wow ")) Sample.world
      = (inr (mkResponse 200 true (MsgLit "Comment added successfully")
                (PayloadComment (Some pc))), w1)
      ∧ getCommentsOfPost 1 w1
        = (inr (CommentsOk (populate_comments false Sample.world
                              (comments Sample.photo) ++ [pc])), w1).
Proof.
  assert (trim (lit " wow ") ≠ []) as Ht by compute_done.
  split; [reflexivity|]. split; [reflexivity|]. split; [exact Ht|].
  apply (addComment_getCommentsOfPost Sample.world 1 Sample.bob Sample.photo
           (lit " wow ") eq_refl eq_refl Ht).
Defined.

(** ** The trim setter *)

Lemma trimStart_suffix (s : str) : ∃ k, s = k ++ trimStart s.
Proof.
  induction s as [|c s [k IH]]; [by exists []|]. simpl.
  destruct (is_ws c); [|by exists []].
  exists (c :: k). simpl. by rewrite <- IH.
Qed.

Lemma trimStart_fixed (s : str) :
  match s with [] => True | c :: _ => is_ws c = false end → trimStart s = s.
Proof. destruct s as [|c s]; [done|]. simpl. by intros ->. Qed.

Lemma trimStart_idemp (s : str) : trimStart (trimStart s) = trimStart s.
Proof.
  apply trimStart_fixed. destruct (trimStart s) eqn:E; [done|].
  by apply trimStart_head in E.
Qed.

Lemma trimEnd_prefix (s : str) : ∃ k, s = trimEnd s ++ k.
Proof.
  destruct (trimStart_suffix (rev s)) as [k Hk]. exists (rev k).
  unfold trimEnd. rewrite <- rev_app_distr, <- Hk. by rewrite rev_involutive.
Qed.

Lemma trimEnd_idemp (s : str) : trimEnd (trimEnd s) = trimEnd s.
Proof. unfold trimEnd. by rewrite rev_involutive, trimStart_idemp. Qed.

(** A trimmed string starts with no white space. *)
Lemma trim_head (s : str) c t : trim s = c :: t → is_ws c = false.
Proof.
  unfold trim. intros H. destruct (trimEnd_prefix (trimStart s)) as [k Hk].
  rewrite H in Hk. simpl in Hk. by apply trimStart_head in Hk.
Qed.

Lemma last_rev_head {A} (l : list A) : last (rev l) = head l.
Proof. destruct l as [|a l]; [done|]. simpl. apply last_snoc. Qed.

(** A trimmed string ends with no white space. *)
Lemma trim_last (s : str) c : last (trim s) = Some c → is_ws c = false.
Proof.
  unfold trim, trimEnd. rewrite last_rev_head.
  destruct (trimStart (rev (trimStart s))) eqn:E; [done|].
  intros [= ->]. by apply trimStart_head in E.
Qed.

Lemma trim_idemp (s : str) : trim (trim s) = trim s.
Proof.
  unfold trim at 1. rewrite (trimStart_fixed (trim s)); [apply trimEnd_idemp|].
  destruct (trim s) eqn:E; [done|]. by apply trim_head in E.
Qed.

(** X14: the [trim: true] setter of [caption] and of a comment's
    [content] stores a string that neither starts nor ends with a
    white-space character, and setting a stored value again does not
    change it. *)
Theorem cast_trim_trimmed (v : option str) :
  cast_trim (cast_trim v) = cast_trim v
  ∧ ∀ s, cast_trim v = Some s →
      (∀ c, head s = Some c → is_ws c = false)
      ∧ (∀ c, last s = Some c → is_ws c = false).
Proof.
  destruct v as [x|]; simpl; [|done]. split; [by rewrite trim_idemp|].
  intros s [= <-]. split.
  - intros c Hc. destruct (trim x) eqn:E; simplify_eq/=. by apply trim_head in E.
  - intros c. apply trim_last.
Qed.

(** ** [deletePost], continued *)

(** X15: [deletePost] by anyone but the post's author answers 403 and
    changes nothing: the post stays stored and the media service is not
    called, whether or not the post carries media. *)
Theorem deletePost_forbidden (cl : Cloudinary) (w : World) (id user_id : ObjectId)
    (p : Post) :
  posts w !! id = Some p →
  author p ≠ user_id →
  deletePost cl id user_id w
  = (inr (json 403 false "Unauthorized to delete this post"), w).
Proof.
  intros Hp Hne. unfold deletePost. run. rewrite Hp.
  by rewrite bool_decide_eq_false_2.
Qed.

Lemma deletePost_forbidden_witness :
  posts Sample.world !! 1 = Some Sample.photo ∧
  author Sample.photo ≠ Sample.bob ∧
  deletePost Sample.reachable 1 Sample.bob Sample.world
  = (inr (json 403 false "Unauthorized to delete this post"), Sample.world).
Proof.
  assert (author Sample.photo ≠ Sample.bob) as Hne by compute_done.
  split; [reflexivity|]. split; [exact Hne|].
  apply (deletePost_forbidden Sample.reachable Sample.world 1 Sample.bob
           Sample.photo eq_refl Hne).
Defined.

(** X16: the author's [deletePost] on a stored post whose [image] and
    [video] are both unset or empty removes the document and answers 200
    without calling the media service. *)
Theorem deletePost_without_media (cl : Cloudinary) (w : World) (id : ObjectId)
    (p : Post) :
  posts w !! id = Some p →
  truthy_opt (image p) = false →
  truthy_opt (video p) = false →
  deletePost cl id (author p) w
  = (inr (json 200 true "Post deleted successfully"), set_posts (delete id) w).
Proof.
  intros Hp Hi Hv. unfold deletePost, or_else. run. rewrite Hp.
  rewrite bool_decide_eq_true_2 by done. simpl. by rewrite Hi, Hv.
Qed.

Lemma deletePost_without_media_witness :
  let text_only := mkPost (Some (lit "note")) None (Some []) (Some (lit "image"))
                          Sample.bob [] [] [] in
  let w := mkWorld {[ 5 := text_only ]} ∅ ∅ [] in
  posts w !! 5 = Some text_only ∧
  truthy_opt (image text_only) = false ∧
  truthy_opt (video text_only) = false ∧
  deletePost Sample.unreachable 5 (author text_only) w
  = (inr (json 200 true "Post deleted successfully"), set_posts (delete 5) w).
Proof.
  intros text_only w.
  split; [reflexivity|]. split; [reflexivity|]. split; [reflexivity|].
  apply (deletePost_without_media Sample.unreachable w 5 text_only);
    reflexivity.
Defined.

(** X17: whenever [deletePost] reports success, the addressed post
    existed and is gone, every other post and every user document is as
    before (so a user's [bookmarks] may still hold the id of the deleted
    post), and a second [deletePost] of the same id answers 404. *)
Theorem deletePost_success (cl : Cloudinary) (w w' : World) (id user_id : ObjectId)
    (r : Response) :
  deletePost cl id user_id w = (inr r, w') →
  success r = true →
  is_Some (posts w !! id)
  ∧ posts w' = delete id (posts w)
  ∧ users w' = users w
  ∧ deletePost cl id user_id w' = (inr (json 404 false "Post not found"), w').
Proof.
  unfold deletePost, uploader_destroy. run.
  destruct (posts w !! id) as [p|] eqn:Hp; simpl; [|by intros [= <- <-]].
  intros Hrun Hok.
  assert (posts w' = delete id (posts w) ∧ users w' = users w) as [Hposts Husers].
  { repeat (case_match; unfold throw, ret in *; simpl in *; simplify_eq); done. }
  split; [by eexists|]. split; [done|]. split; [done|].
  by rewrite Hposts, lookup_delete_eq.
Qed.

Lemma deletePost_success_witness :
  deletePost Sample.reachable 1 Sample.alice Sample.world
  = (inr (json 200 true "Post deleted successfully"),
     set_posts (delete 1)
       (log_call (CallDestroy (lit "https://res.example/posts/a.jpg")) Sample.world)) ∧
  success (json 200 true "Post deleted successfully") = true ∧
  is_Some (posts Sample.world !! 1)
  ∧ posts (set_posts (delete 1)
       (log_call (CallDestroy (lit "https://res.example/posts/a.jpg")) Sample.world))
    = delete 1 (posts Sample.world)
  ∧ users (set_posts (delete 1)
       (log_call (CallDestroy (lit "https://res.example/posts/a.jpg")) Sample.world))
    = users Sample.world
  ∧ deletePost Sample.reachable 1 Sample.alice
      (set_posts (delete 1)
         (log_call (CallDestroy (lit "https://res.example/posts/a.jpg")) Sample.world))
    = (inr (json 404 false "Post not found"),
       set_posts (delete 1)
         (log_call (CallDestroy (lit "https://res.example/posts/a.jpg")) Sample.world)).
Proof.
  split; [reflexivity|]. split; [reflexivity|].
  apply (deletePost_success Sample.reachable Sample.world _ 1 Sample.alice
           (json 200 true "Post deleted successfully")); reflexivity.
Defined.

(** ** Bookmarks, continued *)

(** X18: [bookmarkPost] on a stored post by a user with no user document
    fails on the [null] user: it answers 500 and writes nothing, the
    post's [bookmarks] included. *)
Theorem bookmarkPost_no_user (w : World) (id user_id : ObjectId) (p : Post) :
  posts w !! id = Some p →
  users w !! user_id = None →
  bookmarkPost id user_id w = (inr (json_error 500 (MsgError TypeError)), w).
Proof.
  intros Hp Hu. unfold bookmarkPost. run. rewrite Hp, Hu.
  by destruct (includes user_id (bookmarks p)).
Qed.

Lemma bookmarkPost_no_user_witness :
  posts Sample.world !! 1 = Some Sample.photo ∧
  users Sample.world !! 9 = None ∧
  bookmarkPost 1 9 Sample.world
  = (inr (json_error 500 (MsgError TypeError)), Sample.world).
Proof.
  split; [reflexivity|]. split; [reflexivity|].
  apply (bookmarkPost_no_user Sample.world 1 9 Sample.photo); reflexivity.
Defined.

(** X19: when the bookmark arrays of every stored post and every stored
    user mirror each other, they still do after every [bookmarkPost] that
    reports success: the toggle changes both sides of the addressed pair
    together and disturbs no other post-user pair. *)
Theorem bookmarkPost_keeps_mirror (w w' : World) (id user_id : ObjectId)
    (r : Response) :
  mirror w →
  bookmarkPost id user_id w = (inr r, w') →
  success r = true →
  mirror w'.
Proof.
  intros Hmirror Hrun Hok.
  destruct (posts w !! id) as [p|] eqn:Hp.
  2:{ unfold bookmarkPost in Hrun. revert Hrun. run. rewrite Hp.
      intros [= <- <-]. done. }
  destruct (users w !! user_id) as [u|] eqn:Hu.
  2:{ unfold bookmarkPost in Hrun. revert Hrun. run. rewrite Hp, Hu.
      destruct (includes user_id (bookmarks p)); intros [= <- <-]; done. }
  destruct (validate_post p) as [|e es] eqn:Hv.
  2:{ unfold bookmarkPost in Hrun. revert Hrun. run. rewrite Hp, Hu.
      destruct (includes user_id (bookmarks p)); simpl;
        rewrite validate_post_set_bookmarks, Hv; intros [= <- <-]; done. }
  rewrite (bookmarkPost_step w id user_id p u Hp Hu Hv) in Hrun.
  injection Hrun as _ <-.
  set (was := includes user_id (bookmarks p)).
  assert (was = true ↔ user_id ∈ bookmarks p) as Hwas by apply includes_true.
  pose proof (Hmirror id user_id p u Hp Hu) as Hpu.
  intros i j pi uj. simpl. rewrite !lookup_insert.
  destruct (decide (id = i)) as [<-|Hi], (decide (user_id = j)) as [<-|Hj];
    intros Hpi Huj; simplify_eq; simpl.
  - destruct was; toggled_mem; tauto.
  - pose proof (Hmirror id j p uj Hp Huj).
    destruct was; toggled_mem; intuition congruence.
  - pose proof (Hmirror i user_id pi u Hpi Hu).
    destruct was; toggled_mem; intuition congruence.
  - by apply Hmirror.
Qed.

Lemma bookmarkPost_keeps_mirror_witness :
  mirror Sample.world ∧
  bookmarkPost 1 Sample.bob Sample.world
  = (inr (json 200 true "Post bookmarked successfully"),
     snd (bookmarkPost 1 Sample.bob Sample.world)) ∧
  success (json 200 true "Post bookmarked successfully") = true ∧
  mirror (snd (bookmarkPost 1 Sample.bob Sample.world)).
Proof.
  assert (mirror Sample.world) as Hmirror.
  { intros i j q u Hq Hu. unfold Sample.world in Hq, Hu. simpl in Hq, Hu.
    apply lookup_singleton_Some in Hq as [<- <-].
    apply lookup_insert_Some in Hu as [[<- <-]|[_ Hu]]; [compute_done|].
    apply lookup_singleton_Some in Hu as [<- <-]. compute_done. }
  split; [exact Hmirror|]. split; [reflexivity|]. split; [reflexivity|].
  apply (bookmarkPost_keeps_mirror Sample.world _ 1 Sample.bob
           (json 200 true "Post bookmarked successfully") Hmirror);
    reflexivity.
Defined.

(** ** Every request is answered *)

(** A [try] whose [catch] answers lets no exception out. *)
Lemma try_catch_answers {A} (m : M A) (h : Error → A) (w : World) :
  ∃ a w', try_catch m (λ e, ret (h e)) w = (inr a, w').
Proof.
  unfold try_catch, ret. destruct (m w) as [[e|a] w']; eauto.
Qed.

(** X20: no handler lets an exception escape: [addNewPost], [likePost],
    [dislikePost], [addComment], [deletePost], [bookmarkPost] and
    [getCommentsOfPost] answer every request in every world, and in the
    answers of the first six the [success] flag is set exactly when the
    status is 200 or 201. *)
Theorem handlers_answer (cl : Cloudinary) (w : World) (id user_id : ObjectId)
    (userId : option ObjectId) (caption text : option str) (file : option File) :
  (∃ r w', addNewPost cl userId caption file w = (inr r, w') ∧ coherent r)
  ∧ (∃ r w', likePost id user_id w = (inr r, w') ∧ coherent r)
  ∧ (∃ r w', dislikePost id user_id w = (inr r, w') ∧ coherent r)
  ∧ (∃ r w', addComment id user_id text w = (inr r, w') ∧ coherent r)
  ∧ (∃ r w', deletePost cl id user_id w = (inr r, w') ∧ coherent r)
  ∧ (∃ r w', bookmarkPost id user_id w = (inr r, w') ∧ coherent r)
  ∧ (∃ r w', getCommentsOfPost id w = (inr r, w')).
Proof.
  assert (∀ r, (status r = 200 ∧ success r = true)
               ∨ (success r = false ∧ status r ≠ 200 ∧ status r ≠ 201)
               ∨ (status r = 201 ∧ success r = true) → coherent r) as Hco.
  { intros r. unfold coherent. intuition congruence. }
  split; [|split; [|split; [|split; [|split; [|split]]]]].
  - unfold addNewPost.
    unfold uploader_upload, unlinkAsync, Post_create, validate_post. run.
    repeat (case_match; unfold throw, ret in *; simpl in *; simplify_eq);
      do 2 eexists; (split; [reflexivity|]); apply Hco; simpl; auto.
  - unfold likePost. run.
    repeat (case_match; unfold throw, ret in *; simpl in *; simplify_eq);
      do 2 eexists; (split; [reflexivity|]); apply Hco; simpl; auto.
  - unfold dislikePost. run.
    repeat (case_match; unfold throw, ret in *; simpl in *; simplify_eq);
      do 2 eexists; (split; [reflexivity|]); apply Hco; simpl; auto.
  - unfold addComment. run.
    repeat (case_match; unfold throw, ret in *; simpl in *; simplify_eq);
      do 2 eexists; (split; [reflexivity|]); apply Hco; simpl; auto.
  - unfold deletePost, uploader_destroy. run.
    repeat (case_match; unfold throw, ret in *; simpl in *; simplify_eq);
      do 2 eexists; (split; [reflexivity|]); apply Hco; simpl; auto.
  - unfold bookmarkPost. run.
    repeat (case_match; unfold throw, ret in *; simpl in *; simplify_eq);
      do 2 eexists; (split; [reflexivity|]); apply Hco; simpl; auto.
  - apply try_catch_answers.
Qed.

(** X21: [likePost] and [dislikePost] have [post.save()], and
    [deletePost] has [post.deleteOne()], as their last step: when one of
    them answers with a failure nothing was written.  After a failed
    [likePost] or [dislikePost] the world is what it was; after a failed
    [deletePost] the posts, the user documents and the upload directory
    are what they were (the media service may have been called). *)
Theorem failed_requests_write_nothing (cl : Cloudinary) (w w' : World)
    (id user_id : ObjectId) (r : Response) :
  (likePost id user_id w = (inr r, w') → success r = false → w' = w)
  ∧ (dislikePost id user_id w = (inr r, w') → success r = false → w' = w)
  ∧ (deletePost cl id user_id w = (inr r, w') → success r = false →
     posts w' = posts w ∧ users w' = users w ∧ tmpfiles w' = tmpfiles w).
Proof.
  split; [|split].
  - unfold likePost. run. intros Hrun Hfail.
    repeat (case_match; unfold throw, ret, bind, modify in *; simpl in *; simplify_eq);
      done.
  - unfold dislikePost. run. intros Hrun Hfail.
    repeat (case_match; unfold throw, ret, bind, modify in *; simpl in *; simplify_eq);
      done.
  - unfold deletePost, uploader_destroy. run. intros Hrun Hfail.
    repeat (case_match; unfold throw, ret, bind, modify in *; simpl in *; simplify_eq);
      done.
Qed.

(** X23: [addNewPost] changes no user document, neither changes nor
    removes a post that was stored, never asks the media service to
    delete anything, and uploads at most once. *)
Theorem addNewPost_keeps_stored_posts (cl : Cloudinary) (w : World)
    (userId : option ObjectId) (caption : option str) (file : option File) :
  users (snd (addNewPost cl userId caption file w)) = users w
  ∧ (∀ id p, posts w !! id = Some p →
             posts (snd (addNewPost cl userId caption file w)) !! id = Some p)
  ∧ (cloud_calls (snd (addNewPost cl userId caption file w)) = cloud_calls w
     ∨ ∃ path options,
         cloud_calls (snd (addNewPost cl userId caption file w))
         = cloud_calls w ++ [CallUpload path options]).
Proof.
  assert (∀ id p q, posts w !! id = Some p →
            <[fresh (dom (posts w)) := q]> (posts w) !! id = Some p) as Hfresh.
  { intros id p q Hp. rewrite lookup_insert_ne; [done|].
    intros <-. by apply (is_fresh (dom (posts w))), elem_of_dom. }
  unfold addNewPost.
  unfold uploader_upload, unlinkAsync, Post_create, validate_post. run.
  repeat (case_match; unfold throw, ret, bind, modify in *; simpl in *; simplify_eq);
    (split; [done|]); (split; [by auto|]); eauto.
Qed.
